(** * go-upload: resumable upload session engine

  A shallow embedding of [main.go] (package main of levywang/go-upload)
  and the properties its specification states about it.

  Layout of the development:
  - [Int64]     : Go's int64 arithmetic (wrap-around written out on Z);
  - [strings]   : the functions of Go's [strings] package the server calls;
  - [strconv]   : [strconv.ParseInt(v, 10, 64)];
  - [filepath]  : Go's [path/filepath] for Unix (Separator = '/');
  - the server: configuration, path resolver, session store, the five
    upload handlers and the directory tree handler;
  - the theorems. *)

From Stdlib Require Import ZArith Lia Ascii String List Bool.
From stdpp Require Import base option list gmap strings.

Local Open Scope Z_scope.
Local Open Scope string_scope.

Set Warnings "-register-all".

(* ===================================================================== *)
(** ** int64 *)
(* ===================================================================== *)

Module Int64.

Definition min_int : Z := - 2 ^ 63.
Definition max_int : Z := 2 ^ 63 - 1.

Definition in_range (x : Z) : Prop := min_int <= x <= max_int.

(** Two's complement wrap-around of a mathematical integer to 64 bits. *)
Definition wrap (x : Z) : Z := (x + 2 ^ 63) mod 2 ^ 64 - 2 ^ 63.

Definition in_rangeb (x : Z) : bool := Z.leb min_int x && Z.leb x max_int.

Definition add (a b : Z) : Z := wrap (a + b).
Definition sub (a b : Z) : Z := wrap (a - b).

(** Go's [/] on integers truncates toward zero. *)
Definition div (a b : Z) : Z := wrap (Z.quot a b).

End Int64.

(* ===================================================================== *)
(** ** Go strings (byte strings) *)
(* ===================================================================== *)

Module strings.

Definition slash : ascii := "/"%char.
Definition backslash : ascii := "\"%char.
Definition dot : ascii := "."%char.

(** [unicode.IsSpace] restricted to the one-byte (ASCII) white space:
    tab, line feed, vertical tab, form feed, carriage return, space.
    Multi-byte Unicode spaces are outside this byte-level model. *)
Definition isSpace (c : ascii) : bool :=
  let n := nat_of_ascii c in
  ((9 <=? n)%nat && (n <=? 13)%nat) || (n =? 32)%nat.

Fixpoint TrimLeft (s : string) : string :=
  match s with
  | String c s' => if isSpace c then TrimLeft s' else s
  | EmptyString => EmptyString
  end.

(** Right trim: a character is dropped when it is a space and everything
    after it has been dropped. *)
Fixpoint TrimRight (s : string) : string :=
  match s with
  | String c s' =>
      match TrimRight s' with
      | EmptyString => if isSpace c then EmptyString else String c EmptyString
      | t => String c t
      end
  | EmptyString => EmptyString
  end.

Definition TrimSpace (s : string) : string := TrimRight (TrimLeft s).

Fixpoint HasPrefix (s prefix : string) {struct prefix} : bool :=
  match prefix, s with
  | EmptyString, _ => true
  | String p prefix', String c s' => if Ascii.eqb p c then HasPrefix s' prefix' else false
  | String _ _, EmptyString => false
  end.

Fixpoint drop (n : nat) (s : string) : string :=
  match n, s with
  | S n', String _ s' => drop n' s'
  | _, _ => s
  end.

Definition TrimPrefix (s prefix : string) : string :=
  if HasPrefix s prefix then drop (String.length prefix) s else s.

(** [strings.ReplaceAll(s, old, new)] for one-byte [old] and [new]. *)
Fixpoint ReplaceAll (s : string) (old new : ascii) : string :=
  match s with
  | String c s' => String (if Ascii.eqb c old then new else c) (ReplaceAll s' old new)
  | EmptyString => EmptyString
  end.

(** [strings.Split(s, "/")]: never empty; k separators give k+1 fields. *)
Fixpoint Split (s : string) : list string :=
  match s with
  | EmptyString => [EmptyString]
  | String c s' =>
      if Ascii.eqb c slash then EmptyString :: Split s'
      else match Split s' with
           | h :: t => String c h :: t
           | [] => [String c EmptyString]
           end
  end.

(** [strings.Join(elems, "/")]. *)
Fixpoint Join (elems : list string) : string :=
  match elems with
  | [] => EmptyString
  | [e] => e
  | e :: rest => e +:+ String slash (Join rest)
  end.

Fixpoint contains_slash (s : string) : bool :=
  match s with
  | String c s' => Ascii.eqb c slash || contains_slash s'
  | EmptyString => false
  end.

End strings.

(* ===================================================================== *)
(** ** strconv.ParseInt(s, 10, 64) *)
(* ===================================================================== *)

Module strconv.

Definition digit (c : ascii) : option Z :=
  let n := nat_of_ascii c in
  if ((48 <=? n)%nat && (n <=? 57)%nat) then Some (Z.of_nat n - 48) else None.

(** Accumulates decimal digits; [None] on any other byte. *)
Fixpoint digits (acc : Z) (s : string) : option Z :=
  match s with
  | EmptyString => Some acc
  | String c s' =>
      match digit c with
      | Some d => digits (acc * 10 + d) s'
      | None => None
      end
  end.

(** Optional sign, at least one digit, value inside int64; everything
    else is an error ([err != nil] in the caller). *)
Definition ParseInt (s : string) : option Z :=
  let '(neg, body) :=
    match s with
    | String "+" s' => (false, s')
    | String "-" s' => (true, s')
    | _ => (false, s)
    end in
  match body with
  | EmptyString => None
  | _ =>
      match digits 0 body with
      | Some n =>
          let v := if neg then - n else n in
          if (Z.leb Int64.min_int v && Z.leb v Int64.max_int)%bool then Some v else None
      | None => None
      end
  end.

End strconv.

(* ===================================================================== *)
(** ** path/filepath (Unix implementation) *)
(* ===================================================================== *)

Module filepath.

(** [filepath.Separator] is '/' and no path has a volume name on Unix. *)
Definition Separator : string := "/".

Definition VolumeName (path : string) : string := "".

Definition IsAbs (path : string) : bool := strings.HasPrefix path "/".

(** One element of [Clean]'s scan.  The output buffer is kept as the number
    of leading [..] elements written so far (the part below Go's [dotdot]
    index) and the stack of real elements above it, latest first. *)
Definition cleanStep (rooted : bool) (out : nat * list string) (e : string)
  : nat * list string :=
  let '(dd, st) := out in
  if String.eqb e "" then out            (* empty path element *)
  else if String.eqb e "." then out      (* . element *)
  else if String.eqb e ".." then         (* .. element *)
    match st with
    | _ :: st' => (dd, st')              (* can backtrack *)
    | [] => if rooted then out else (S dd, [])
    end
  else (dd, e :: st).                    (* real path element *)

Definition cleanElems (rooted : bool) (elems : list string) : list string :=
  let '(dd, st) := fold_left (cleanStep rooted) elems (O, []) in
  (repeat ".." dd ++ rev st)%list.

(** [filepath.Clean]: the shortest lexically equivalent path. *)
Definition Clean (path : string) : string :=
  if String.eqb path "" then "."
  else
    let rooted := strings.HasPrefix path "/" in
    let out := cleanElems rooted (strings.Split path) in
    if rooted then "/" +:+ strings.Join out
    else match out with
         | [] => "."
         | _ => strings.Join out
         end.

(** [filepath.Join]: the elements from the first non-empty one on, joined by
    the separator and cleaned; the empty string when all are empty. *)
Fixpoint Join (elem : list string) : string :=
  match elem with
  | [] => ""
  | e :: rest =>
      if String.eqb e "" then Join rest else Clean (strings.Join elem)
  end.

(** [filepath.Abs]: [wd] is what [os.Getwd] reports, [None] when it fails. *)
Definition Abs (wd : option string) (path : string) : option string :=
  if IsAbs path then Some (Clean path)
  else match wd with
       | Some d => Some (Join [d; path])
       | None => None
       end.

(** The non-empty fields of a path. *)
Definition elems (path : string) : list string :=
  List.filter (fun e => negb (String.eqb e "")) (strings.Split path).

(** Drops the longest common prefix of two element lists. *)
Fixpoint dropCommon (bs ts : list string) : list string * list string :=
  match bs, ts with
  | b :: bs', t :: ts' => if String.eqb b t then dropCommon bs' ts' else (bs, ts)
  | _, _ => (bs, ts)
  end.

(** [filepath.Rel(basepath, targpath)]; [None] is the error result.  The
    element-wise scan of the two cleaned paths stops at the first pair of
    differing elements: the call fails when that base element is [..];
    otherwise each base element left becomes one [..] in front of what is
    left of the target. *)
Definition Rel (basepath targpath : string) : option string :=
  let base := Clean basepath in
  let targ := Clean targpath in
  if String.eqb targ base then Some "."
  else
    let base := if String.eqb base "." then "" else base in
    if negb (Bool.eqb (strings.HasPrefix base "/") (strings.HasPrefix targ "/"))
    then None
    else
      match dropCommon (elems base) (elems targ) with
      | (b :: _, _ :: _) as rest =>
          if String.eqb b ".." then None
          else Some (strings.Join (map (fun _ => "..") (fst rest) ++ snd rest)%list)
      | (br, tr) => Some (strings.Join (map (fun _ => "..") br ++ tr)%list)
      end.

(** Drops the trailing separators. *)
Fixpoint stripTrailingSlashes (path : string) : string :=
  match path with
  | EmptyString => EmptyString
  | String c s' =>
      match stripTrailingSlashes s' with
      | EmptyString => if Ascii.eqb c strings.slash then EmptyString else String c EmptyString
      | t => String c t
      end
  end.

(** [filepath.Base]: the last element of the path. *)
Definition Base (path : string) : string :=
  if String.eqb path "" then "."
  else
    match stripTrailingSlashes path with
    | EmptyString => "/"
    | p => List.last (strings.Split p) ""
    end.

End filepath.

(* ===================================================================== *)
(** ** The server: configuration and path resolver *)
(* ===================================================================== *)

Record Limits := {
  MaxChunkBytes : Z;
  MaxFileBytes : Z
}.

Record Storage := {
  RootDir : string;
  StateDir : string
}.

Record Config := {
  storage : Storage;
  limits : Limits
}.

Record Server := {
  cfg : Config;
  rootAbs : string;
  stateAbs : string;
  metaSaveInterval : Z
}.

Definition maxInt64 (a b : Z) : Z := if Z.ltb b a then a else b.

(** [newServer]; the directory creation it performs is not part of the
    model, only the values it computes. *)
Definition newServer (wd : option string) (c : Config) : option Server :=
  match filepath.Abs wd (RootDir (storage c)) with
  | None => None
  | Some root =>
      Some {| cfg := c;
              rootAbs := root;
              stateAbs := filepath.Join [root; StateDir (storage c)];
              metaSaveInterval :=
                maxInt64 (64 * 1024 * 1024) (Int64.div (MaxChunkBytes (limits c)) 2) |}
  end.

(** The errors of the path resolver: "empty path" and "invalid path" of
    [sanitizeRelPath], "path escapes root" of [finalAbsPath], and the error
    [filepath.Abs] passes on from [os.Getwd]. *)
Inductive PathError := ErrEmptyPath | ErrInvalidPath | ErrEscapesRoot | ErrAbs.

Definition sanitizeRelPath (p : string) : PathError + string :=
  let p := strings.ReplaceAll p strings.backslash strings.slash in
  let p := strings.TrimSpace p in
  let p := strings.TrimPrefix p "/" in
  let p := strings.TrimPrefix p "./" in
  if String.eqb p "" then inl ErrEmptyPath
  else
    let clean := filepath.Clean p in
    if String.eqb clean "." || String.eqb clean ".."
       || strings.HasPrefix clean (".." +:+ filepath.Separator)
    then inl ErrInvalidPath
    else if negb (String.eqb (filepath.VolumeName clean) "") then inl ErrInvalidPath
    else inr clean.

Definition isSubpath (childAbs rootAbs : string) : bool :=
  let rootAbs := filepath.Clean rootAbs in
  let childAbs := filepath.Clean childAbs in
  match filepath.Rel rootAbs childAbs with
  | None => false
  | Some rel =>
      negb (String.eqb rel "..")
      && negb (strings.HasPrefix rel (".." +:+ filepath.Separator))
  end.

Definition finalAbsPath (wd : option string) (s : Server) (rel : string)
  : PathError + string :=
  match sanitizeRelPath rel with
  | inl e => inl e
  | inr rel =>
      let abs := filepath.Join [rootAbs s; rel] in
      match filepath.Abs wd abs with
      | None => inl ErrAbs
      | Some abs =>
          if negb (isSubpath abs (rootAbs s)) then inl ErrEscapesRoot
          else inr abs
      end
  end.

(* ===================================================================== *)
(** ** Session metadata, the file system and the server's memory *)
(* ===================================================================== *)

Record UploadMeta := {
  UploadID : string;
  CreatedAt : Z;
  Filename : string;
  RelPath : string;
  TotalSize : Z;
  ChunkSize : Z;
  UploadedSize : Z;
  Completed : bool
}.

Definition setUploadedSize (m : UploadMeta) (n : Z) : UploadMeta :=
  {| UploadID := UploadID m; CreatedAt := CreatedAt m; Filename := Filename m;
     RelPath := RelPath m; TotalSize := TotalSize m; ChunkSize := ChunkSize m;
     UploadedSize := n; Completed := Completed m |}.

Definition setCompleted (m : UploadMeta) (b : bool) : UploadMeta :=
  {| UploadID := UploadID m; CreatedAt := CreatedAt m; Filename := Filename m;
     RelPath := RelPath m; TotalSize := TotalSize m; ChunkSize := ChunkSize m;
     UploadedSize := UploadedSize m; Completed := b |}.

(** [json.Unmarshal] into an [UploadMeta] rejects a number that does not
    fit its int64 field. *)
Definition int64Fields (m : UploadMeta) : bool :=
  Int64.in_rangeb (TotalSize m) && Int64.in_rangeb (ChunkSize m)
  && Int64.in_rangeb (UploadedSize m).

(** What a file under the storage root holds, as [json.Unmarshal] into an
    [UploadMeta] sees it: bytes it decodes to the record [m], or bytes it
    rejects, of which the model keeps the length.  [saveMeta] writes files
    of the first kind; the bytes of an upload are of either kind. *)
Inductive File :=
| FMeta (m : UploadMeta)
| FData (size : Z).

(** The system calls that change the file system, in the order issued.
    [EvWriteAt] stands for the writes of one run of [copyToWriterAt], [n]
    bytes in all. *)
Inductive Event :=
| EvWriteFile (path : string) (m : UploadMeta)
| EvSaveMeta (path : string) (m : UploadMeta)
| EvEnsureParentDir (path : string)
| EvCreate (path : string)
| EvTruncate (path : string) (size : Z)
| EvWriteAt (path : string) (offset n : Z)
| EvRename (src dst : string)
| EvRemove (path : string).

(** The world a handler runs in: the files (keyed by absolute path), the two
    [sync.Map]s of the server and the trace of system calls.  A handler is
    one step on the world: the mutex of [muByUpload] serialises the handlers
    that change a session, and the model runs requests one after another. *)
Record World := {
  fs : gmap string File;
  lastSaved : gmap string Z;
  muByUpload : gset string;
  log : list Event
}.

Definition emptyWorld : World :=
  {| fs := ∅; lastSaved := ∅; muByUpload := ∅; log := [] |}.

Definition setFs (w : World) (f : gmap string File) (evs : list Event) : World :=
  {| fs := f; lastSaved := lastSaved w; muByUpload := muByUpload w;
     log := (log w ++ evs)%list |}.

Definition setLastSaved (w : World) (l : gmap string Z) : World :=
  {| fs := fs w; lastSaved := l; muByUpload := muByUpload w; log := log w |}.

Definition setMu (w : World) (mu : gset string) : World :=
  {| fs := fs w; lastSaved := lastSaved w; muByUpload := mu; log := log w |}.

(** ** HTTP requests and responses *)

Definition StatusOK : Z := 200.
Definition StatusBadRequest : Z := 400.
Definition StatusNotFound : Z := 404.
Definition StatusMethodNotAllowed : Z := 405.
Definition StatusConflict : Z := 409.
Definition StatusRequestEntityTooLarge : Z := 413.
Definition StatusInternalServerError : Z := 500.

Module initReq.
Record t := {
  Filename : string;
  Path : string;
  TotalSize : Z;
  ChunkSize : Z
}.
End initReq.

Inductive DirNode :=
| mkDirNode (Name : string) (RelPath : string) (Children : list DirNode).

Definition nodeName (n : DirNode) : string := let 'mkDirNode a _ _ := n in a.
Definition nodeRelPath (n : DirNode) : string := let 'mkDirNode _ r _ := n in r.
Definition nodeChildren (n : DirNode) : list DirNode := let 'mkDirNode _ _ c := n in c.

(** The nodes below a node, at every level. *)
Fixpoint descendants (n : DirNode) : list DirNode :=
  match n with
  | mkDirNode _ _ children => flat_map (fun c => c :: descendants c) children
  end.

(** A request as the handlers read it: method, query parameters, headers,
    Content-Length, and for init the JSON object of the body ([None] when
    the body is not JSON of that shape), its numbers as written. *)
Record Request := {
  Method : string;
  Query : gmap string string;
  Header : gmap string string;
  ContentLength : Z;
  JSONBody : option initReq.t
}.

Definition QueryGet (r : Request) (key : string) : string :=
  default "" (Query r !! key).

Definition HeaderGet (r : Request) (key : string) : string :=
  default "" (Header r !! key).

(** Response bodies: the text of [http.Error], or one of the JSON values. *)
Inductive Body :=
| Text (msg : string)
| JHealth
| JInit (upload_id : string) (uploaded_size : Z)
| JMeta (m : UploadMeta)
| JUploaded (uploaded_size : Z)
| JCompleted (path : string)
| JCancelled
| JTree (root : DirNode).

Record Response := {
  status : Z;
  body : Body
}.

Definition httpError (msg : string) (code : Z) : Response :=
  {| status := code; body := Text msg |}.

Definition writeJSON (code : Z) (v : Body) : Response :=
  {| status := code; body := v |}.

(** ** Storage and state *)

Definition metaPath (s : Server) (uploadID : string) : string :=
  filepath.Join [stateAbs s; uploadID +:+ ".json"].

Definition partPath (s : Server) (uploadID : string) : string :=
  filepath.Join [stateAbs s; uploadID +:+ ".part"].

Inductive LoadError := ErrNotExist | ErrUnmarshal.

Definition loadMeta (s : Server) (uploadID : string) (w : World)
  : LoadError + UploadMeta :=
  match fs w !! metaPath s uploadID with
  | None => inl ErrNotExist
  | Some (FMeta m) => inr m
  | Some (FData _) => inl ErrUnmarshal
  end.

(** How the two steps of [saveMeta] end: [os.WriteFile] of the [.tmp] file,
    then [os.Rename] over the metadata path. *)
Inductive SaveOutcome := SaveDone | SaveWriteFailed | SaveRenameFailed.

Definition saveMeta (s : Server) (o : SaveOutcome) (m : UploadMeta) (w : World)
  : bool * World :=
  let tmp := metaPath s (UploadID m) +:+ ".tmp" in
  match o with
  | SaveWriteFailed => (false, w)
  | SaveRenameFailed =>
      (false, setFs w (<[tmp := FMeta m]> (fs w)) [EvWriteFile tmp m])
  | SaveDone =>
      (true, setFs w (<[metaPath s (UploadID m) := FMeta m]> (delete tmp (fs w)))
                     [EvWriteFile tmp m; EvSaveMeta (metaPath s (UploadID m)) m])
  end.

Definition lock (uploadID : string) (w : World) : World :=
  setMu w ({[uploadID]} ∪ muByUpload w).

Definition ensureParentDir (ok : bool) (path : string) (w : World) : bool * World :=
  if ok then (true, setFs w (fs w) [EvEnsureParentDir path]) else (false, w).

(* ===================================================================== *)
(** ** The upload handlers *)
(* ===================================================================== *)

(** What the environment decides during one request.  For init: the 16
    random bytes of [newUploadID] (hex), the clock, and whether each file
    operation succeeds. *)
Record InitIO := {
  newUploadID : string;
  timeNow : Z;
  initSave : SaveOutcome;
  initMkdirOk : bool;
  initCreateOk : bool;
  initTruncateOk : bool
}.

(** How the request body ends when no byte is left: [io.EOF], or an error
    of the transport. *)
Inductive ReadError := ReadEOF | ReadFailed.

(** For chunk: whether the part file opens; the number of bytes the body
    delivers and how it ends; the JSON object the bytes of the part file
    spell once those of the body are in it, its numbers as written ([None]
    when they are no such text); what the device does with a [WriteAt] of
    [n] bytes at an offset (bytes written, and whether an error comes back);
    and how [saveMeta] ends. *)
Record ChunkIO := {
  chunkOpenOk : bool;
  bodyBytes : Z;
  bodyEnd : ReadError;
  bodyJSON : option UploadMeta;
  diskWriteAt : Z -> Z -> Z * bool;
  chunkSave : SaveOutcome
}.

Record CompleteIO := {
  completeMkdirOk : bool;
  completeRenameOk : bool;
  completeSave : SaveOutcome
}.

Record CancelIO := {
  removePartOk : bool;
  removeMetaOk : bool
}.

Section Handlers.

(** The working directory of the process, as [os.Getwd] reports it. *)
Variable wd : option string.
Variable s : Server.

Definition handleHealth (r : Request) : Response := writeJSON StatusOK JHealth.

(** [readJSON] into an [initReq]: [json.Unmarshal] fails on a number that
    does not fit the int64 field. *)
Definition readJSON (r : Request) : option initReq.t :=
  match JSONBody r with
  | Some req =>
      if Int64.in_rangeb (initReq.TotalSize req) && Int64.in_rangeb (initReq.ChunkSize req)
      then Some req else None
  | None => None
  end.

Definition handleInit (r : Request) (io : InitIO) (w : World) : Response * World :=
  if negb (String.eqb (Method r) "POST") then
    (httpError "method not allowed" StatusMethodNotAllowed, w)
  else
  match readJSON r with
  | None => (httpError "bad json" StatusBadRequest, w)   (* err.Error() *)
  | Some req =>
    let reqFilename := strings.TrimSpace (initReq.Filename req) in
    let reqPath := strings.TrimSpace (initReq.Path req) in
    let reqPath := if String.eqb reqPath "" then reqFilename else reqPath in
    let reqFilename :=
      if String.eqb reqFilename "" then filepath.Base reqPath else reqFilename in
    if Z.leb (initReq.TotalSize req) 0 then
      (httpError "total_size must be > 0" StatusBadRequest, w)
    else if Z.ltb 0 (MaxFileBytes (limits (cfg s)))
            && Z.ltb (MaxFileBytes (limits (cfg s))) (initReq.TotalSize req) then
      (httpError "file too large" StatusRequestEntityTooLarge, w)
    else if Z.leb (initReq.ChunkSize req) 0
            || Z.ltb (MaxChunkBytes (limits (cfg s))) (initReq.ChunkSize req) then
      (httpError "invalid chunk_size" StatusBadRequest, w)
    else
    match sanitizeRelPath reqPath with
    | inl _ => (httpError "invalid path" StatusBadRequest, w)
    | inr rel =>
      let uploadID := newUploadID io in
      let meta :=
        {| UploadID := uploadID; CreatedAt := timeNow io; Filename := reqFilename;
           RelPath := rel; TotalSize := initReq.TotalSize req;
           ChunkSize := initReq.ChunkSize req; UploadedSize := 0;
           Completed := false |} in
      let '(ok, w) := saveMeta s (initSave io) meta w in
      if negb ok then (httpError "save meta failed" StatusInternalServerError, w)
      else
      let partPath := partPath s uploadID in
      let '(ok, w) := ensureParentDir (initMkdirOk io) partPath w in
      if negb ok then (httpError "mkdir failed" StatusInternalServerError, w)
      else if negb (initCreateOk io) then
        (httpError "create part failed" StatusInternalServerError, w)
      else
        (* os.OpenFile(partPath, O_CREATE|O_RDWR): an existing file is kept *)
        let f := default (FData 0) (fs w !! partPath) in
        let w := setFs w (<[partPath := f]> (fs w)) [EvCreate partPath] in
        if negb (initTruncateOk io) then
          (httpError "truncate failed" StatusInternalServerError, w)
        else
          (* Truncate pads with zero bytes or cuts, and what is left is
             taken not to decode; an id is 16 fresh random bytes, so the
             file is new in practice *)
          let w := setFs w (<[partPath := FData (initReq.TotalSize req)]> (fs w))
                         [EvTruncate partPath (initReq.TotalSize req)] in
          (writeJSON StatusOK (JInit uploadID 0), w)
    end
  end.

Definition handleStatus (r : Request) (w : World) : Response :=
  if negb (String.eqb (Method r) "GET") then
    httpError "method not allowed" StatusMethodNotAllowed
  else
  let uploadID := strings.TrimSpace (QueryGet r "upload_id") in
  if String.eqb uploadID "" then httpError "missing upload_id" StatusBadRequest
  else
  match loadMeta s uploadID w with
  | inl ErrNotExist => httpError "not found" StatusNotFound
  | inl _ => httpError "load failed" StatusInternalServerError
  | inr meta => writeJSON StatusOK (JMeta meta)
  end.

(** The errors [copyToWriterAt] returns: the one of [WriteAt],
    [io.ErrShortWrite], the one of the body; [ErrFuel] marks a loop cut
    short by the fuel of the model and is never returned. *)
Inductive CopyError := ErrWriteAt | ErrShortWrite | ErrBody | ErrFuel.

(** The buffer of [copyToWriterAt]: [1 << 20] bytes. *)
Definition bufSize : Z := 2 ^ 20.

(** [f.WriteAt(buf[:n], off)].  A file offset is an int64: a write at a
    negative offset or one that would reach past [Int64.max_int] fails
    without writing. *)
Definition WriteAt (io : ChunkIO) (n off : Z) : Z * bool :=
  if Z.ltb off 0 || Z.ltb Int64.max_int (off + n) then (0, true)
  else diskWriteAt io off n.

(** One [Read(buf)] of [io.LimitReader(r.Body, limit)] when the body still
    holds [avail] bytes: the bytes read, and the error if any. *)
Definition limitedRead (io : ChunkIO) (limit avail : Z) : Z * option ReadError :=
  if Z.leb limit 0 then (0, Some ReadEOF)
  else
    let n := Z.min (Z.min bufSize limit) avail in
    if Z.ltb 0 n then (n, None) else (0, Some (bodyEnd io)).

(** The loop of [copyToWriterAt]; [limit] and [avail] are the state of the
    reader, [total] the bytes written so far. *)
Fixpoint copyLoop (io : ChunkIO) (fuel : nat) (offset total limit avail : Z)
  : Z * option CopyError :=
  match fuel with
  | O => (total, Some ErrFuel)
  | S fuel' =>
    let '(n, err) := limitedRead io limit avail in
    let '(total, stop) :=
      if Z.ltb 0 n then
        let '(wn, werr) := WriteAt io n (Int64.add offset total) in
        (Int64.add total wn,
         if werr then Some ErrWriteAt
         else if negb (Z.eqb wn n) then Some ErrShortWrite
         else None)
      else (total, None) in
    match stop, err with
    | Some e, _ => (total, Some e)
    | None, Some ReadEOF => (total, None)
    | None, Some ReadFailed => (total, Some ErrBody)
    | None, None => copyLoop io fuel' offset total (limit - n) (avail - n)
    end
  end.

(** [copyToWriterAt(f, io.LimitReader(r.Body, chunkLen), offset)]: the bytes
    written and the error.  Every turn of the loop but the last two moves a
    full buffer, which bounds their number. *)
Definition copyToWriterAt (io : ChunkIO) (offset chunkLen : Z)
  : Z * option CopyError :=
  copyLoop io (Z.to_nat (chunkLen / bufSize) + 2) offset 0 chunkLen (bodyBytes io).

(** The part file after [n] bytes were written at [offset]; [json] is the
    object its bytes spell then. *)
Definition writtenAt (f : File) (offset n : Z) (json : option UploadMeta) : File :=
  if Z.leb n 0 then f
  else
    let size :=
      match f with
      | FData size => Z.max size (offset + n)
      | FMeta _ => offset + n
      end in
    match json with
    | Some m => if int64Fields m then FMeta m else FData size
    | None => FData size
    end.

Definition handleChunk (r : Request) (io : ChunkIO) (w : World) : Response * World :=
  if negb (String.eqb (Method r) "PUT") then
    (httpError "method not allowed" StatusMethodNotAllowed, w)
  else
  let uploadID := strings.TrimSpace (QueryGet r "upload_id") in
  if String.eqb uploadID "" then (httpError "missing upload_id" StatusBadRequest, w)
  else
  let offsetStr := strings.TrimSpace (HeaderGet r "X-Chunk-Offset") in
  if String.eqb offsetStr "" then
    (httpError "missing X-Chunk-Offset" StatusBadRequest, w)
  else
  match strconv.ParseInt offsetStr with
  | None => (httpError "invalid offset" StatusBadRequest, w)
  | Some offset =>
    if Z.ltb offset 0 then (httpError "invalid offset" StatusBadRequest, w)
    else
    let chunkLen := ContentLength r in
    if Z.leb chunkLen 0 then
      (httpError "missing/invalid Content-Length" StatusBadRequest, w)
    else if Z.ltb (MaxChunkBytes (limits (cfg s))) chunkLen then
      (httpError "chunk too large" StatusRequestEntityTooLarge, w)
    else
    let w := lock uploadID w in
    match loadMeta s uploadID w with
    | inl ErrNotExist => (httpError "not found" StatusNotFound, w)
    | inl _ => (httpError "load failed" StatusInternalServerError, w)
    | inr meta =>
      if Completed meta then (httpError "already completed" StatusConflict, w)
      else if Z.ltb (TotalSize meta) (Int64.add offset chunkLen) then
        (httpError "chunk out of range" StatusBadRequest, w)
      else
      let partPath := partPath s uploadID in
      match (if chunkOpenOk io then fs w !! partPath else None) with
      | None => (httpError "open part failed" StatusInternalServerError, w)
      | Some f =>
        let '(wrote, err) := copyToWriterAt io offset chunkLen in
        let w := setFs w (<[partPath := writtenAt f offset wrote (bodyJSON io)]> (fs w))
                       [EvWriteAt partPath offset wrote] in
        match err with
        | Some _ => (httpError "write failed" StatusInternalServerError, w)
        | None =>
        if negb (Z.eqb wrote chunkLen) then
          (httpError "short write" StatusInternalServerError, w)
        else
        let meta :=
          let end_ := Int64.add offset chunkLen in
          if Z.ltb (UploadedSize meta) end_ then setUploadedSize meta end_ else meta in
        (* lastSaved.LoadOrStore(uploadID, int64(0)) *)
        let lastSavedV := default 0 (lastSaved w !! uploadID) in
        let w := setLastSaved w (<[uploadID := lastSavedV]> (lastSaved w)) in
        let needPersist :=
          Z.eqb (UploadedSize meta) (TotalSize meta)
          || Z.leb (metaSaveInterval s) (Int64.sub (UploadedSize meta) lastSavedV) in
        if needPersist then
          let '(ok, w) := saveMeta s (chunkSave io) meta w in
          if negb ok then (httpError "save failed" StatusInternalServerError, w)
          else
            let w := setLastSaved w (<[uploadID := UploadedSize meta]> (lastSaved w)) in
            (writeJSON StatusOK (JUploaded (UploadedSize meta)), w)
        else (writeJSON StatusOK (JUploaded (UploadedSize meta)), w)
        end
      end
    end
  end.

Definition handleComplete (r : Request) (io : CompleteIO) (w : World)
  : Response * World :=
  if negb (String.eqb (Method r) "POST") then
    (httpError "method not allowed" StatusMethodNotAllowed, w)
  else
  let uploadID := strings.TrimSpace (QueryGet r "upload_id") in
  if String.eqb uploadID "" then (httpError "missing upload_id" StatusBadRequest, w)
  else
  let w := lock uploadID w in
  match loadMeta s uploadID w with
  | inl ErrNotExist => (httpError "not found" StatusNotFound, w)
  | inl _ => (httpError "load failed" StatusInternalServerError, w)
  | inr meta =>
    if Completed meta then
      (* finalPath, _ := s.finalAbsPath(meta.RelPath) *)
      let finalPath :=
        match finalAbsPath wd s (RelPath meta) with inr p => p | inl _ => "" end in
      (writeJSON StatusOK (JCompleted finalPath), w)
    else if Z.ltb (UploadedSize meta) (TotalSize meta) then
      (* the two sizes the message ends with are left out *)
      (httpError "not fully uploaded" StatusConflict, w)
    else
    match finalAbsPath wd s (RelPath meta) with
    | inl _ => (httpError "invalid path" StatusBadRequest, w)
    | inr finalAbs =>
      let '(ok, w) := ensureParentDir (completeMkdirOk io) finalAbs w in
      if negb ok then (httpError "mkdir failed" StatusInternalServerError, w)
      else
      let partPath := partPath s uploadID in
      match (if completeRenameOk io then fs w !! partPath else None) with
      | None => (httpError "finalize failed" StatusInternalServerError, w)
      | Some f =>
        let w := setFs w (<[finalAbs := f]> (delete partPath (fs w)))
                       [EvRename partPath finalAbs] in
        let meta := setCompleted meta true in
        let '(ok, w) := saveMeta s (completeSave io) meta w in
        if negb ok then (httpError "save failed" StatusInternalServerError, w)
        else (writeJSON StatusOK (JCompleted finalAbs), w)
      end
    end
  end.

(** [os.Remove]; the handler drops its error. *)
Definition osRemove (ok : bool) (path : string) (w : World) : World :=
  if ok then setFs w (delete path (fs w)) [EvRemove path] else w.

Definition handleCancel (r : Request) (io : CancelIO) (w : World)
  : Response * World :=
  if negb (String.eqb (Method r) "POST" || String.eqb (Method r) "DELETE") then
    (httpError "method not allowed" StatusMethodNotAllowed, w)
  else
  let uploadID := strings.TrimSpace (QueryGet r "upload_id") in
  if String.eqb uploadID "" then (httpError "missing upload_id" StatusBadRequest, w)
  else
  let w := lock uploadID w in
  match loadMeta s uploadID w with
  | inl ErrNotExist => (httpError "not found" StatusNotFound, w)
  | inl _ => (httpError "load failed" StatusInternalServerError, w)
  | inr meta =>
    if Completed meta then (httpError "already completed" StatusConflict, w)
    else
      let w := osRemove (removePartOk io) (partPath s uploadID) w in
      let w := osRemove (removeMetaOk io) (metaPath s uploadID) w in
      let w := setLastSaved w (delete uploadID (lastSaved w)) in
      let w := setMu w (muByUpload w ∖ {[uploadID]}) in
      (writeJSON StatusOK JCancelled, w)
  end.

End Handlers.

(* ===================================================================== *)
(** ** The directory tree handler *)
(* ===================================================================== *)

(** One entry of [ReadDir]. *)
Record DirEntry := {
  deName : string;
  deIsDir : bool
}.

Section Tree.

Variable wd : option string.
Variable s : Server.

(** The directories on disk: [os.Open] followed by [ReadDir(-1)] on an
    absolute path, [None] when either fails. *)
Variable readDir : string -> option (list DirEntry).

Variables maxDepth maxEntries : Z.

(** The [for] loop of [build] over the entries of one directory; [rec] is
    the recursive call of [build].  [children] is [node.Children] so far and
    [entries] the counter the closure shares with all its calls. *)
Fixpoint buildLoop (rec : string -> string -> Z -> Z -> option (DirNode * bool * Z))
    (absDir relDir : string) (depth : Z)
    (kids : list DirEntry) (children : list DirNode) (entries : Z)
  : option (list DirNode * Z) :=
  match kids with
  | [] => Some (children, entries)
  | de :: rest =>
    if Z.leb maxEntries entries then Some (children, entries)   (* break *)
    else if negb (deIsDir de) then
      buildLoop rec absDir relDir depth rest children entries
    else if String.eqb relDir ""
            && String.eqb (deName de) (StateDir (storage (cfg s)))
    then buildLoop rec absDir relDir depth rest children entries
    else if String.eqb (deName de) (StateDir (storage (cfg s)))
    then buildLoop rec absDir relDir depth rest children entries
    else
      let entries := Int64.add entries 1 in
      let childAbs := filepath.Join [absDir; deName de] in
      let childRel :=
        if String.eqb relDir "" then deName de
        else filepath.Join [relDir; deName de] in
      match filepath.Abs wd childAbs with
      | None => buildLoop rec absDir relDir depth rest children entries
      | Some childAbs2 =>
        if negb (isSubpath childAbs2 (rootAbs s)) then
          buildLoop rec absDir relDir depth rest children entries
        else
          match rec childAbs2 childRel (Int64.add depth 1) entries with
          | None => None
          | Some (childNode, err, entries) =>
              if err then buildLoop rec absDir relDir depth rest children entries
              else buildLoop rec absDir relDir depth rest
                             (children ++ [childNode])%list entries
          end
      end
  end.

(** The closure [build] of [handleStorageTree].  The result is the node,
    whether an error is returned with it, and the shared counter.  [fuel]
    bounds the recursion; [None] means it ran out. *)
Fixpoint build (fuel : nat) (absDir relDir : string) (depth entries : Z)
  : option (DirNode * bool * Z) :=
  let name := filepath.Base absDir in
  let name := if String.eqb relDir "" then filepath.Base (rootAbs s) else name in
  if Z.leb maxDepth depth then Some (mkDirNode name relDir [], false, entries)
  else
  match fuel with
  | O => None
  | S fuel' =>
    match readDir absDir with
    | None => Some (mkDirNode name relDir [], true, entries)
    | Some kids =>
      match buildLoop (build fuel') absDir relDir depth kids [] entries with
      | None => None
      | Some (children, entries) => Some (mkDirNode name relDir children, false, entries)
      end
    end
  end.

End Tree.

(** The limit a query parameter asks for: the parsed value when it is a
    number inside [lo, hi], the default otherwise. *)
Definition queryLimit (r : Request) (key : string) (lo hi dflt : Z) : Z :=
  let v := strings.TrimSpace (QueryGet r key) in
  if String.eqb v "" then dflt
  else match strconv.ParseInt v with
       | Some n => if Z.leb lo n && Z.leb n hi then n else dflt
       | None => dflt
       end.

Definition handleStorageTree (wd : option string) (s : Server)
    (readDir : string -> option (list DirEntry)) (r : Request) : option Response :=
  if negb (String.eqb (Method r) "GET") then
    Some (httpError "method not allowed" StatusMethodNotAllowed)
  else
  let maxDepth := queryLimit r "max_depth" 0 20 4 in
  let maxEntries := queryLimit r "max_entries" 1 200000 5000 in
  match build wd s readDir maxDepth maxEntries (Z.to_nat maxDepth) (rootAbs s) "" 0 0 with
  | None => None
  | Some (rootNode, err, _) =>
      if err then Some (httpError "scan failed" StatusInternalServerError)
      else Some (writeJSON StatusOK (JTree rootNode))
  end.

(* ===================================================================== *)
(** ** Sequences of operations *)
(* ===================================================================== *)

Inductive Op :=
| OpInit (r : Request) (io : InitIO)
| OpStatus (r : Request)
| OpChunk (r : Request) (io : ChunkIO)
| OpComplete (r : Request) (io : CompleteIO)
| OpCancel (r : Request) (io : CancelIO).

Definition step (wd : option string) (s : Server) (op : Op) (w : World)
  : Response * World :=
  match op with
  | OpInit r io => handleInit s r io w
  | OpStatus r => (handleStatus s r w, w)
  | OpChunk r io => handleChunk s r io w
  | OpComplete r io => handleComplete wd s r io w
  | OpCancel r io => handleCancel s r io w
  end.

(** Runs the operations in order; the responses are returned latest last. *)
Fixpoint run (wd : option string) (s : Server) (ops : list Op) (w : World)
  : list Response * World :=
  match ops with
  | [] => ([], w)
  | op :: rest =>
      let '(resp, w1) := step wd s op w in
      let '(resps, w2) := run wd s rest w1 in
      (resp :: resps, w2)
  end.

(** The worlds some sequence of operations leads to from the empty one. *)
Definition reachable (wd : option string) (s : Server) (w : World) : Prop :=
  exists ops, snd (run wd s ops emptyWorld) = w.

(* ===================================================================== *)
(** ** Predicates used in the statements *)
(* ===================================================================== *)

(** A string without a separator. *)
Definition nosep (e : string) : Prop := strings.contains_slash e = false.

(** A real path element: what [Clean] keeps as a name. *)
Definition real (e : string) : Prop :=
  e <> "" /\ e <> "." /\ e <> ".." /\ nosep e.

(** The elements of the cleaned storage root. *)
Definition rootElems (root : string) : list string :=
  filepath.cleanElems true (strings.Split root).


(** The invariants of a metadata record: the received extent stays
    inside the declared size, and a completed record has received all. *)
Definition meta_inv (m : UploadMeta) : Prop :=
  0 <= UploadedSize m <= TotalSize m
  /\ (Completed m = true -> UploadedSize m = TotalSize m).

(** Every metadata record on disk satisfies [P]. *)
Definition fs_all (P : UploadMeta -> Prop) (w : World) : Prop :=
  forall path m, fs w !! path = Some (FMeta m) -> P m.

Definition fs_inv (w : World) : Prop := fs_all meta_inv w.

(** The received extent of a record is an int64. *)
Definition meta_rng (m : UploadMeta) : Prop := UploadedSize m <= Int64.max_int.

(** The body of a chunk operation spells no record but one that satisfies
    [P]. *)
Definition bodyOk (P : UploadMeta -> Prop) (op : Op) : Prop :=
  match op with
  | OpChunk _ io => forall m, bodyJSON io = Some m -> int64Fields m = true -> P m
  | _ => True
  end.

(** The persisted sizes the server remembers are non-negative int64s. *)
Definition ls_ok (w : World) : Prop :=
  forall id v, lastSaved w !! id = Some v -> 0 <= v <= Int64.max_int.

Definition world_wf (w : World) : Prop := fs_all meta_rng w /\ ls_ok w.

(** The request reaches the session: method, id and headers are in order. *)
Definition chunkHeadersOk (s : Server) (r : Request) (id : string) (offset : Z) : Prop :=
  Method r = "PUT"
  /\ strings.TrimSpace (QueryGet r "upload_id") = id /\ id <> ""
  /\ strconv.ParseInt (strings.TrimSpace (HeaderGet r "X-Chunk-Offset")) = Some offset
  /\ 0 <= offset
  /\ 0 < ContentLength r <= MaxChunkBytes (limits (cfg s)).

(** The world after the bytes of an accepted chunk are on disk and
    [lastSaved.LoadOrStore] has run. *)
Definition chunkWritten (s : Server) (id : string) (offset len : Z)
    (json : option UploadMeta) (f : File) (w : World) : World :=
  setLastSaved
    (setFs (lock id w) (<[partPath s id := writtenAt f offset len json]> (fs w))
           [EvWriteAt (partPath s id) offset len])
    (<[id := default 0 (lastSaved w !! id)]> (lastSaved w)).

(** The part of the world a session consists of is untouched: files, the
    persisted-size table and the trace (the lock registry may have grown). *)
Definition sessionStateUnchanged (w w' : World) : Prop :=
  fs w' = fs w /\ lastSaved w' = lastSaved w /\ log w' = log w.

(** The request names the session [id]. *)
Definition idHeadersOk (r : Request) (id : string) : Prop :=
  strings.TrimSpace (QueryGet r "upload_id") = id /\ id <> "".

(** The world after a successful finalisation. *)
Definition completed (s : Server) (id finalAbs : string) (meta : UploadMeta)
    (f : File) (w : World) : World :=
  snd (saveMeta s SaveDone (setCompleted meta true)
         (setFs (setFs (lock id w) (fs w) [EvEnsureParentDir finalAbs])
                (<[finalAbs := f]> (delete (partPath s id) (fs w)))
                [EvRename (partPath s id) finalAbs])).


(** The path and file name init works with after its two substitutions. *)
Definition effectivePath (req : initReq.t) : string :=
  let p := strings.TrimSpace (initReq.Path req) in
  if String.eqb p "" then strings.TrimSpace (initReq.Filename req) else p.

Definition effectiveFilename (req : initReq.t) : string :=
  let f := strings.TrimSpace (initReq.Filename req) in
  if String.eqb f "" then filepath.Base (effectivePath req) else f.

(** The sizes of an init request pass validation. *)
Definition initSizesOk (s : Server) (req : initReq.t) : Prop :=
  0 < initReq.TotalSize req
  /\ (0 < MaxFileBytes (limits (cfg s)) ->
      initReq.TotalSize req <= MaxFileBytes (limits (cfg s)))
  /\ 0 < initReq.ChunkSize req <= MaxChunkBytes (limits (cfg s)).

(** The record init builds for an accepted path. *)
Definition initialMeta (req : initReq.t) (io : InitIO) (rel : string) : UploadMeta :=
  {| UploadID := newUploadID io; CreatedAt := timeNow io;
     Filename := effectiveFilename req; RelPath := rel;
     TotalSize := initReq.TotalSize req; ChunkSize := initReq.ChunkSize req;
     UploadedSize := 0; Completed := false |}.


(** [build] is at a directory below the root: the directory is the root's
    elements followed by real names, the last of them [name], and [relDir]
    is those names. *)
Definition below (s : Server) (absDir relDir name : string) : Prop :=
  exists rs, Forall real rs /\ real name
    /\ absDir = String strings.slash (strings.Join (rootElems (rootAbs s) ++ rs ++ [name]))
    /\ relDir = strings.Join (rs ++ [name]).

(** What [ReadDir] can return: real names. *)
Definition readDirOk (readDir : string -> option (list DirEntry)) : Prop :=
  forall d es, readDir d = Some es -> Forall (fun de => real (deName de)) es.


(* ===================================================================== *)
(** ** Concrete inputs *)
(* ===================================================================== *)

(** The configuration of [config.example.yaml] with a 128 MiB chunk limit,
    rooted at [/srv/uploads]. *)
Definition exampleConfig : Config :=
  {| storage := {| RootDir := "/srv/uploads"; StateDir := ".go-upload_state" |};
     limits := {| MaxChunkBytes := 128 * 1024 * 1024; MaxFileBytes := 0 |} |}.

Definition exampleServer : Server :=
  {| cfg := exampleConfig;
     rootAbs := "/srv/uploads";
     stateAbs := "/srv/uploads/.go-upload_state";
     metaSaveInterval := 64 * 1024 * 1024 |}.

Definition mkRequest (method : string) (query header : list (string * string))
    (len : Z) (json : option initReq.t) : Request :=
  {| Method := method; Query := list_to_map query; Header := list_to_map header;
     ContentLength := len; JSONBody := json |}.

Definition initRequest (filename path : string) (total chunk : Z) : Request :=
  mkRequest "POST" [] [] 0
    (Some {| initReq.Filename := filename; initReq.Path := path;
             initReq.TotalSize := total; initReq.ChunkSize := chunk |}).

Definition chunkRequest (id offset : string) (len : Z) : Request :=
  mkRequest "PUT" [("upload_id", id)] [("X-Chunk-Offset", offset)] len None.

Definition idRequest (method id : string) : Request :=
  mkRequest method [("upload_id", id)] [] 0 None.

Definition treeRequest (depth entries : string) : Request :=
  mkRequest "GET" [("max_depth", depth); ("max_entries", entries)] [] 0 None.

(** Environments in which every file operation succeeds. *)
Definition initOk (id : string) : InitIO :=
  {| newUploadID := id; timeNow := 0; initSave := SaveDone; initMkdirOk := true;
     initCreateOk := true; initTruncateOk := true |}.

Definition chunkOk (n : Z) : ChunkIO :=
  {| chunkOpenOk := true; bodyBytes := n; bodyEnd := ReadEOF; bodyJSON := None;
     diskWriteAt := fun _ n => (n, false); chunkSave := SaveDone |}.

(** The record [json.Unmarshal] makes of the 19 bytes
    [{"uploaded_size":9}]: every field but one has its zero value. *)
Definition craftedMeta : UploadMeta :=
  {| UploadID := ""; CreatedAt := 0; Filename := ""; RelPath := "";
     TotalSize := 0; ChunkSize := 0; UploadedSize := 9; Completed := false |}.

(** A body of those 19 bytes, written from offset 0 into a part file of 19
    bytes. *)
Definition chunkCrafted : ChunkIO :=
  {| chunkOpenOk := true; bodyBytes := 19; bodyEnd := ReadEOF;
     bodyJSON := Some craftedMeta;
     diskWriteAt := fun _ n => (n, false); chunkSave := SaveDone |}.

Definition completeOk : CompleteIO :=
  {| completeMkdirOk := true; completeRenameOk := true; completeSave := SaveDone |}.


(** A small storage root: the state directory, a file, and the directories
    [2024] (holding [january]) and [docs]. *)
Definition exampleDisk (path : string) : option (list DirEntry) :=
  if String.eqb path "/srv/uploads" then
    Some [ {| deName := ".go-upload_state"; deIsDir := true |};
           {| deName := "readme.txt"; deIsDir := false |};
           {| deName := "2024"; deIsDir := true |};
           {| deName := "docs"; deIsDir := true |} ]
  else if String.eqb path "/srv/uploads/2024" then
    Some [ {| deName := "january"; deIsDir := true |} ]
  else if String.eqb path "/srv/uploads/2024/january" then Some []
  else if String.eqb path "/srv/uploads/docs" then Some []
  else None.

(** A session of 100 MiB announced with 16 MiB chunks, as init leaves it. *)
Definition exampleInit : Op :=
  OpInit (initRequest "a.bin" "x/a.bin" 104857600 16777216) (initOk "U").

Definition exampleWorld : World :=
  snd (run None exampleServer [exampleInit] emptyWorld).

Definition exampleMeta : UploadMeta :=
  {| UploadID := "U"; CreatedAt := 0; Filename := "a.bin"; RelPath := "x/a.bin";
     TotalSize := 104857600; ChunkSize := 16777216; UploadedSize := 0;
     Completed := false |}.

(** The tree of [exampleDisk]. *)
Definition exampleTree : DirNode :=
  mkDirNode "uploads" ""
    [mkDirNode "2024" "2024" [mkDirNode "january" "2024/january" []];
     mkDirNode "docs" "docs" []].

(* ===================================================================== *)
(** ** Further definitions *)
(* ===================================================================== *)

(** The last byte of a string. *)
Fixpoint lastByte (s : string) : option ascii :=
  match s with
  | EmptyString => None
  | String c EmptyString => Some c
  | String _ s' => lastByte s'
  end.




(** The number of levels of the tree below a node. *)
Fixpoint height (n : DirNode) : nat :=
  match n with
  | mkDirNode _ _ children =>
      fold_right (fun c h => Nat.max (S (height c)) h) O children
  end.

(** The node stands for a directory that [ReadDir] reported: an entry [de]
    with [IsDir] of some directory [d] that was read, whose name is the
    node's name and whose place [d/name] is the storage root joined with the
    node's relative path. *)
Definition listedDir (s : Server) (readDir : string -> option (list DirEntry))
    (n : DirNode) : Prop :=
  exists d es de,
    readDir d = Some es /\ In de es /\ deIsDir de = true
    /\ deName de = nodeName n
    /\ filepath.Join [rootAbs s; nodeRelPath n] = filepath.Join [d; deName de].

(** [encoding/hex]: [EncodeToString] writes two digits of [hextable] for
    each byte, the high half first.  (The index into [hextable] is below 16,
    so the default of [digit] is never used.) *)
Module hex.

Definition hextable : string := "0123456789abcdef".

Definition digit (n : N) : ascii :=
  match String.get (N.to_nat n) hextable with
  | Some c => c
  | None => "0"%char
  end.

Fixpoint EncodeToString (src : list Byte.byte) : string :=
  match src with
  | [] => ""
  | v :: rest =>
      String (digit (N.shiftr (Byte.to_N v) 4))
        (String (digit (N.land (Byte.to_N v) 15)) (EncodeToString rest))
  end.

End hex.

(** [newUploadID], as a function of the 16 bytes [rand.Read] leaves in
    its array [b]; the field [newUploadID] of [InitIO] stands for its
    result. *)
Module gen.

Definition newUploadID (b : list Byte.byte) : string := hex.EncodeToString b.

End gen.

(* ===================================================================== *)
(** * Properties *)
(* ===================================================================== *)

(** ** The library models on the documented examples *)

Example clean_ex1 : filepath.Clean "a//b/./c/.." = "a/b". Proof. reflexivity. Qed.
Example clean_ex2 : filepath.Clean "/../a/../../b/" = "/b". Proof. reflexivity. Qed.
Example clean_ex3 : filepath.Clean "../../a/../.." = "../../..". Proof. reflexivity. Qed.
Example clean_ex4 : filepath.Clean "/" = "/". Proof. reflexivity. Qed.
Example rel_ex1 : filepath.Rel "/a/b" "/a/b/c/d" = Some "c/d". Proof. reflexivity. Qed.
Example rel_ex2 : filepath.Rel "/a/b" "/a/c" = Some "../c". Proof. reflexivity. Qed.
Example rel_ex3 : filepath.Rel "/" "/a" = Some "a". Proof. reflexivity. Qed.
Example rel_ex4 : filepath.Rel "/a" "/" = Some "..". Proof. reflexivity. Qed.
Example rel_ex5 : filepath.Rel "../.." ".." = Some "..". Proof. reflexivity. Qed.
Example rel_ex6 : filepath.Rel "../a" "b" = None. Proof. reflexivity. Qed.
Example rel_ex7 : filepath.Rel "a/b" "c/d" = Some "../../c/d". Proof. reflexivity. Qed.
Example base_ex : (filepath.Base "/a/b/", filepath.Base "", filepath.Base "///", filepath.Base "x") = ("b", ".", "/", "x").
Proof. reflexivity. Qed.
Example san_ex1 : sanitizeRelPath "a/../b" = inr "b". Proof. reflexivity. Qed.
Example san_ex2 : sanitizeRelPath "/etc/passwd" = inr "etc/passwd". Proof. reflexivity. Qed.
Example san_ex3 : sanitizeRelPath "../../etc/passwd" = inl ErrInvalidPath. Proof. reflexivity. Qed.
Example san_ex4 : sanitizeRelPath "/ /" = inr " ". Proof. reflexivity. Qed.
Example san_ex5 : sanitizeRelPath " " = inl ErrEmptyPath. Proof. reflexivity. Qed.
Example san_ex6 : sanitizeRelPath "C:\Windows" = inr "C:/Windows". Proof. reflexivity. Qed.

(** ** int64 arithmetic *)

Lemma Int64_wrap_in_range x : Int64.in_range (Int64.wrap x).
Proof.
  unfold Int64.in_range, Int64.wrap, Int64.min_int, Int64.max_int.
  pose proof (Z.mod_pos_bound (x + 2 ^ 63) (2 ^ 64) ltac:(lia)). lia.
Qed.

Lemma Int64_wrap_id x : Int64.in_range x -> Int64.wrap x = x.
Proof.
  unfold Int64.in_range, Int64.wrap, Int64.min_int, Int64.max_int. intros H.
  rewrite Z.mod_small by lia. lia.
Qed.

Lemma Int64_add_no_overflow a b : Int64.in_range (a + b) -> Int64.add a b = a + b.
Proof. apply Int64_wrap_id. Qed.

Lemma Int64_sub_no_overflow a b : Int64.in_range (a - b) -> Int64.sub a b = a - b.
Proof. apply Int64_wrap_id. Qed.

(** Adding a positive length to a non-negative offset either stays exact
    or wraps to a negative number. *)
Lemma Int64_add_nonneg_cases a b :
  0 <= a <= Int64.max_int -> 0 <= b <= Int64.max_int ->
  (a + b <= Int64.max_int /\ Int64.add a b = a + b)
  \/ (Int64.max_int < a + b /\ Int64.add a b < 0).
Proof.
  unfold Int64.add, Int64.wrap, Int64.max_int. intros Ha Hb.
  destruct (Z_le_gt_dec (a + b) (2 ^ 63 - 1)) as [Hle | Hgt].
  - left. split; [lia |]. rewrite Z.mod_small by lia. lia.
  - right. split; [lia |].
    replace (a + b + 2 ^ 63) with ((a + b - 2 ^ 63) + 1 * 2 ^ 64) by lia.
    rewrite Z.mod_add by lia. rewrite Z.mod_small by lia. lia.
Qed.


(** ** Paths *)

(** *** Elements of paths *)



Lemma Split_nonempty p : strings.Split p <> [].
Proof.
  destruct p as [| c p]; simpl; [discriminate |].
  destruct (Ascii.eqb c strings.slash); [discriminate |].
  destruct (strings.Split p); discriminate.
Qed.

Lemma Split_nosep p : Forall nosep (strings.Split p).
Proof.
  induction p as [| c p IH]; simpl.
  - repeat constructor.
  - destruct (Ascii.eqb c strings.slash) eqn:Hc.
    + constructor; [reflexivity | exact IH].
    + destruct (strings.Split p) as [| h t]; [repeat constructor; unfold nosep; simpl; now rewrite Hc |].
      apply Forall_cons in IH as [Hh Ht]. constructor; [| assumption].
      unfold nosep in *. simpl. rewrite Hc. assumption.
Qed.

Lemma Split_single e : nosep e -> strings.Split e = [e].
Proof.
  unfold nosep. induction e as [| c e IH]; simpl; [reflexivity |].
  intros H. apply orb_false_iff in H as [Hc He].
  rewrite Hc, (IH He). reflexivity.
Qed.

Lemma Split_app_slash a b :
  strings.Split (a +:+ String strings.slash b) = (strings.Split a ++ strings.Split b)%list.
Proof.
  induction a as [| c a IH]; simpl.
  - reflexivity.
  - destruct (Ascii.eqb c strings.slash); [now rewrite IH |].
    rewrite IH. destruct (strings.Split a) eqn:Ha; [| reflexivity].
    now apply Split_nonempty in Ha.
Qed.

Lemma Join_cons e es :
  es <> [] -> strings.Join (e :: es) = e +:+ String strings.slash (strings.Join es).
Proof. destruct es; [congruence | reflexivity]. Qed.

Lemma Split_Join es :
  es <> [] -> Forall nosep es -> strings.Split (strings.Join es) = es.
Proof.
  induction es as [| e es IH]; [congruence |]. intros _ H. inversion H; subst.
  destruct es as [| e' es'].
  - simpl. now apply Split_single.
  - rewrite Join_cons by discriminate. rewrite Split_app_slash.
    rewrite Split_single by assumption. rewrite IH by (assumption || discriminate).
    reflexivity.
Qed.

(** *** The scan of Clean *)

Lemma cleanStep_real r dd st e :
  real e -> filepath.cleanStep r (dd, st) e = (dd, e :: st).
Proof.
  intros (H1 & H2 & H3 & _). unfold filepath.cleanStep.
  destruct (String.eqb_spec e ""); [congruence |].
  destruct (String.eqb_spec e "."); [congruence |].
  destruct (String.eqb_spec e ".."); [congruence |]. reflexivity.
Qed.

Lemma cleanStep_empty r out : filepath.cleanStep r out "" = out.
Proof. destruct out. reflexivity. Qed.

Lemma fold_cleanStep_real r es dd st :
  Forall real es ->
  fold_left (filepath.cleanStep r) es (dd, st) = (dd, (rev es ++ st)%list).
Proof.
  revert st. induction es as [| e es IH]; intros st H; cbn [fold_left rev]; [reflexivity |].
  apply Forall_cons in H as [He Hes]. rewrite cleanStep_real by assumption.
  rewrite IH by assumption. now rewrite <- app_assoc.
Qed.

(** One step keeps real elements on the stack, and never counts a [..]
    when the path is rooted. *)
Lemma cleanStep_inv r dd st e dd' st' :
  nosep e -> Forall real st ->
  filepath.cleanStep r (dd, st) e = (dd', st') ->
  Forall real st' /\ (r = true -> dd' = dd).
Proof.
  intros He Hst. unfold filepath.cleanStep.
  destruct (String.eqb_spec e ""); [intros [= <- <-]; auto |].
  destruct (String.eqb_spec e "."); [intros [= <- <-]; auto |].
  destruct (String.eqb_spec e "..").
  - destruct st as [| t st].
    + destruct r; intros [= <- <-]; auto. split; [constructor | discriminate].
    + apply Forall_cons in Hst as [_ Hst]. intros [= <- <-]; auto.
  - intros [= <- <-]. split; [| auto].
    constructor; [| assumption]. repeat split; assumption.
Qed.

Lemma fold_cleanStep_inv r es dd st dd' st' :
  Forall nosep es -> Forall real st ->
  fold_left (filepath.cleanStep r) es (dd, st) = (dd', st') ->
  Forall real st' /\ (r = true -> dd' = dd).
Proof.
  revert dd st. induction es as [| e es IH]; intros dd st Hes Hst Hf; cbn [fold_left] in Hf.
  - inversion Hf; subst. auto.
  - apply Forall_cons in Hes as [He Hes].
    destruct (filepath.cleanStep r (dd, st) e) as [dd1 st1] eqn:E.
    destruct (cleanStep_inv _ _ _ _ _ _ He Hst E) as [H1 H2].
    destruct (IH _ _ Hes H1 Hf) as [H3 H4]. split; [assumption |].
    intros Hr. rewrite H4, H2; auto.
Qed.

(** The output of [cleanElems]: some [..] elements (none when rooted), then
    real elements. *)
Lemma cleanElems_shape r es :
  Forall nosep es ->
  exists dd out, filepath.cleanElems r es = (repeat ".." dd ++ out)%list
                 /\ Forall real out /\ (r = true -> dd = O).
Proof.
  intros Hes. unfold filepath.cleanElems.
  destruct (fold_left (filepath.cleanStep r) es (O, [])) as [dd st] eqn:E.
  destruct (fold_cleanStep_inv _ _ _ _ _ _ Hes (Forall_nil_2 _) E) as [H1 H2].
  exists dd, (rev st). split; [reflexivity |]. split; [| assumption].
  now apply Forall_rev.
Qed.

Lemma cleanElems_app_real r es out :
  Forall real out ->
  filepath.cleanElems r (es ++ out) = (filepath.cleanElems r es ++ out)%list.
Proof.
  intros H. unfold filepath.cleanElems. rewrite fold_left_app.
  destruct (fold_left (filepath.cleanStep r) es (O, [])) as [dd st].
  rewrite fold_cleanStep_real by assumption.
  rewrite rev_app_distr, rev_involutive. now rewrite app_assoc.
Qed.

Lemma cleanElems_skip_empty r es ys :
  filepath.cleanElems r (es ++ "" :: ys) = filepath.cleanElems r (es ++ ys).
Proof.
  unfold filepath.cleanElems. rewrite !fold_left_app. cbn [fold_left].
  now rewrite cleanStep_empty.
Qed.

(** *** Clean, Join and Rel on rooted paths *)

Lemma rooted_cons p : strings.HasPrefix p "/" = true -> exists p', p = String strings.slash p'.
Proof.
  destruct p as [| c p]; cbn [strings.HasPrefix]; [discriminate |].
  destruct (Ascii.eqb_spec "/"%char c); [subst; eauto | discriminate].
Qed.

Lemma Clean_rooted p :
  strings.HasPrefix p "/" = true ->
  Forall real (filepath.cleanElems true (strings.Split p))
  /\ filepath.Clean p = String strings.slash (strings.Join (filepath.cleanElems true (strings.Split p))).
Proof.
  intros Hp. destruct (rooted_cons _ Hp) as [p' ->].
  destruct (cleanElems_shape true _ (Split_nosep (String strings.slash p')))
    as (dd & out & E & Hout & Hdd).
  rewrite (Hdd eq_refl) in E. cbn [repeat app] in E.
  split; [now rewrite E |].
  unfold filepath.Clean. rewrite Hp. reflexivity.
Qed.

Lemma cleanElems_real out : Forall real out -> filepath.cleanElems true out = out.
Proof.
  intros H. change out with ([] ++ out)%list at 1.
  now rewrite cleanElems_app_real.
Qed.

Lemma Split_rooted_Join r out xs :
  Forall real out ->
  filepath.cleanElems r (xs ++ strings.Split (strings.Join out))
  = (filepath.cleanElems r xs ++ out)%list.
Proof.
  intros H. destruct out as [| e out].
  - cbn [strings.Join strings.Split]. rewrite cleanElems_skip_empty.
    now rewrite !app_nil_r.
  - rewrite Split_Join; [now apply cleanElems_app_real | discriminate |].
    eapply Forall_impl; [exact H |]. now intros x (_ & _ & _ & ?).
Qed.

Lemma Split_slash x : strings.Split (String strings.slash x) = "" :: strings.Split x.
Proof. reflexivity. Qed.

Lemma cleanElems_rooted_Join out :
  Forall real out ->
  filepath.cleanElems true (strings.Split (String strings.slash (strings.Join out))) = out.
Proof.
  intros H. rewrite Split_slash.
  change ("" :: strings.Split (strings.Join out))
    with ([""] ++ strings.Split (strings.Join out))%list.
  now rewrite Split_rooted_Join.
Qed.

Lemma Clean_rooted_real out :
  Forall real out ->
  filepath.Clean (String strings.slash (strings.Join out))
  = String strings.slash (strings.Join out).
Proof.
  intros H. destruct (Clean_rooted (String strings.slash (strings.Join out)) eq_refl) as [_ ->].
  now rewrite cleanElems_rooted_Join.
Qed.

Lemma filter_real out :
  Forall real out -> List.filter (fun e => negb (String.eqb e "")) out = out.
Proof.
  induction 1 as [| e out (He & _) _ IH]; simpl; [reflexivity |].
  destruct (String.eqb_spec e ""); [congruence |]. simpl. now rewrite IH.
Qed.

Lemma elems_rooted_real out :
  Forall real out -> filepath.elems (String strings.slash (strings.Join out)) = out.
Proof.
  intros H. unfold filepath.elems. rewrite Split_slash.
  cbn [List.filter String.eqb negb].
  destruct out as [| e out]; [reflexivity |].
  rewrite Split_Join; [now apply filter_real | discriminate |].
  eapply Forall_impl; [exact H |]. now intros x (_ & _ & _ & ?).
Qed.

Lemma dropCommon_app bs xs : filepath.dropCommon bs (bs ++ xs) = ([], xs).
Proof.
  induction bs as [| b bs IH]; simpl; [now destruct xs |].
  now rewrite String.eqb_refl.
Qed.

(** A path that begins with a real element neither is [..] nor begins with
    a [..] element. *)
Lemma append_nil_r (x : string) : x +:+ "" = x.
Proof.
  induction x as [| c x IH]; [reflexivity |].
  change (String c (x +:+ "") = String c x). now rewrite IH.
Qed.

Lemma HasPrefix_spec p pre :
  strings.HasPrefix p pre = true -> exists t, p = pre +:+ t.
Proof.
  revert p. induction pre as [| c pre IH]; intros p; cbn [strings.HasPrefix].
  - intros _. now exists p.
  - destruct p as [| d p]; [discriminate |].
    destruct (Ascii.eqb_spec c d); [subst d | discriminate].
    intros H. destruct (IH _ H) as [t ->]. now exists t.
Qed.

Lemma nosep_not_dotdot_prefix e x :
  real e -> strings.HasPrefix (e +:+ x) "../" = true -> False.
Proof.
  intros (H1 & H2 & H3 & H4) H. unfold nosep in H4.
  apply HasPrefix_spec in H as [t E].
  destruct e as [| c1 [| c2 [| c3 e]]]; [congruence | | |].
  - injection E as -> _. congruence.
  - injection E as -> -> _. congruence.
  - injection E as -> -> -> _. cbn in H4. discriminate.
Qed.

Lemma Join_real_not_escaping out :
  Forall real out ->
  String.eqb (strings.Join out) ".." = false
  /\ strings.HasPrefix (strings.Join out) "../" = false.
Proof.
  intros H. destruct out as [| e out]; [split; reflexivity |].
  apply Forall_cons in H as [He Hout].
  assert (Hp : forall x, strings.HasPrefix (e +:+ x) "../" = false).
  { intros x. destruct (strings.HasPrefix (e +:+ x) "../") eqn:E; [| reflexivity].
    exfalso. eapply nosep_not_dotdot_prefix; eauto. }
  destruct out as [| e' out].
  - cbn [strings.Join]. split.
    + destruct (String.eqb_spec e ".."); [| reflexivity]. now destruct He as (_ & _ & ? & _).
    + specialize (Hp ""). now rewrite append_nil_r in Hp.
  - rewrite Join_cons by discriminate. split; [| apply Hp].
    destruct (String.eqb_spec (e +:+ String strings.slash (strings.Join (e' :: out))) "..") as [E |]; [| reflexivity].
    exfalso. clear -E.
    destruct e as [| c1 [| c2 e]].
    + change (String strings.slash (strings.Join (e' :: out)) = "..") in E.
      discriminate.
    + change (String c1 (String strings.slash (strings.Join (e' :: out))) = "..") in E.
      discriminate.
    + change (String c1 (String c2 (e +:+ String strings.slash (strings.Join (e' :: out)))) = "..") in E.
      injection E as _ _ E. destruct e; discriminate.
Qed.

Lemma HasPrefix_app_l p x pre :
  strings.HasPrefix p pre = true -> strings.HasPrefix (p +:+ x) pre = true.
Proof.
  revert p. induction pre as [| c pre IH]; intros p; simpl; [reflexivity |].
  destruct p as [| d p]; [discriminate |]. simpl.
  destruct (Ascii.eqb c d); [apply IH | discriminate].
Qed.



Lemma Join_root_rel root rel out :
  strings.HasPrefix root "/" = true ->
  Forall real out ->
  (rel = String strings.slash (strings.Join out)
   \/ (out <> [] /\ rel = strings.Join out)) ->
  filepath.Join [root; rel]
  = String strings.slash (strings.Join (rootElems root ++ out)).
Proof.
  intros Hroot Hout Hrel.
  destruct (rooted_cons _ Hroot) as [root' Er].
  assert (Hj : filepath.Join [root; rel] = filepath.Clean (root +:+ String strings.slash rel)).
  { rewrite Er. reflexivity. }
  rewrite Hj.
  destruct (Clean_rooted (root +:+ String strings.slash rel)) as [_ ->];
    [now apply HasPrefix_app_l |].
  f_equal. f_equal. rewrite Split_app_slash. unfold rootElems.
  destruct Hrel as [-> | [Hne ->]].
  - rewrite Split_slash, cleanElems_skip_empty. now apply Split_rooted_Join.
  - now apply Split_rooted_Join.
Qed.

Lemma rootElems_real root :
  strings.HasPrefix root "/" = true -> Forall real (rootElems root).
Proof. intros H. now destruct (Clean_rooted _ H). Qed.

Lemma Clean_root root :
  strings.HasPrefix root "/" = true ->
  filepath.Clean root = String strings.slash (strings.Join (rootElems root)).
Proof. intros H. now destruct (Clean_rooted _ H). Qed.

Lemma rooted_neq_dot x : String.eqb (String strings.slash x) "." = false.
Proof. reflexivity. Qed.

Lemma rooted_HasPrefix x : strings.HasPrefix (String strings.slash x) "/" = true.
Proof. reflexivity. Qed.

(** A rooted path made of the root's elements followed by real elements is
    a subpath of the root. *)
Lemma isSubpath_below root out :
  strings.HasPrefix root "/" = true ->
  Forall real out ->
  isSubpath (String strings.slash (strings.Join (rootElems root ++ out))) root = true.
Proof.
  intros Hroot Hout.
  pose proof (rootElems_real _ Hroot) as HR.
  assert (HRo : Forall real (rootElems root ++ out)) by now apply Forall_app.
  unfold isSubpath, filepath.Rel.
  rewrite (Clean_root _ Hroot).
  rewrite !(Clean_rooted_real _ HRo), !(Clean_rooted_real _ HR).
  destruct (String.eqb _ _); [reflexivity |].
  rewrite rooted_neq_dot, !rooted_HasPrefix. cbn [Bool.eqb negb].
  rewrite (elems_rooted_real _ HR), (elems_rooted_real _ HRo), dropCommon_app.
  assert (E : strings.Join (map (fun _ : string => "..") [] ++ out) = strings.Join out)
    by reflexivity.
  destruct (Join_real_not_escaping _ Hout) as [H1 H2].
  destruct out as [| e out]; [reflexivity |].
  rewrite E. change (".." +:+ filepath.Separator) with "../".
  now rewrite H1, H2.
Qed.


(** *** The path resolver *)










(* ===================================================================== *)
(** ** The session engine *)
(* ===================================================================== *)

(** *** The copy loop *)

(** A write that [WriteAt] lets through stays inside the int64 range. *)
Lemma WriteAt_ok io n off wn :
  WriteAt io n off = (wn, false) -> 0 <= off /\ off + n <= Int64.max_int.
Proof.
  unfold WriteAt. destruct (Z.ltb_spec off 0); [discriminate |].
  destruct (Z.ltb_spec Int64.max_int (off + n)); [discriminate |]. auto.
Qed.

(** When the loop ends without an error, all the bytes it counted lie
    inside the int64 range of file offsets. *)
Lemma copyLoop_end io fuel offset :
  0 <= offset ->
  forall total limit avail t,
  0 <= total -> offset + total <= Int64.max_int ->
  copyLoop io fuel offset total limit avail = (t, None) ->
  total <= t /\ offset + t <= Int64.max_int.
Proof.
  intros Ho. induction fuel as [| fuel IH]; intros total limit avail t Ht Hm;
    cbn [copyLoop]; [discriminate |].
  assert (Eot : Int64.add offset total = offset + total).
  { apply Int64_add_no_overflow. unfold Int64.in_range, Int64.min_int. lia. }
  destruct (limitedRead io limit avail) as [n err].
  destruct (Z.ltb_spec 0 n) as [Hn | Hn].
  - rewrite Eot. destruct (WriteAt io n (offset + total)) as [wn werr] eqn:Ew.
    destruct werr; [discriminate |].
    destruct (Z.eqb_spec wn n) as [-> | _]; cbn [negb]; [| discriminate].
    apply WriteAt_ok in Ew as [_ Ew].
    assert (Etn : Int64.add total n = total + n).
    { apply Int64_add_no_overflow. unfold Int64.in_range, Int64.min_int. lia. }
    rewrite Etn.
    destruct err as [[|] |]; [intros [= <-]; lia | discriminate |].
    intros H. apply IH in H; lia.
  - destruct err as [[|] |]; [intros [= <-]; lia | discriminate |].
    intros H. apply IH in H; lia.
Qed.

(** The fuel of [copyToWriterAt] is enough: the loop is never cut short. *)
Lemma copyLoop_fuel io fuel offset :
  forall total limit avail t e,
  (if Z.leb limit 0 || Z.leb avail 0 then 1 else limit / bufSize + 2)
    <= Z.of_nat fuel ->
  copyLoop io fuel offset total limit avail = (t, Some e) -> e <> ErrFuel.
Proof.
  induction fuel as [| fuel IH]; intros total limit avail t e Hf.
  { exfalso. cbn [Z.of_nat] in Hf.
    destruct (Z.leb_spec limit 0); cbn [orb] in Hf; [lia |].
    pose proof (Z.div_pos limit bufSize ltac:(lia) ltac:(unfold bufSize; lia)).
    destruct (Z.leb avail 0); lia. }
  cbn [copyLoop]. unfold limitedRead.
  destruct (Z.leb_spec limit 0) as [Hl | Hl].
  { cbn. discriminate. }
  cbn [orb] in Hf.
  destruct (Z.ltb_spec 0 (Z.min (Z.min bufSize limit) avail)) as [Hn | Hn].
  - rewrite (proj2 (Z.ltb_lt _ _) Hn).
    destruct (WriteAt io _ _) as [wn werr].
    destruct werr; [intros [= _ <-]; discriminate |].
    destruct (Z.eqb_spec wn (Z.min (Z.min bufSize limit) avail)) as [-> | _];
      cbn [negb]; [| intros [= _ <-]; discriminate].
    apply IH.
    assert (Hb : 0 < bufSize) by (unfold bufSize; lia).
    pose proof (Z.div_pos limit bufSize ltac:(lia) Hb).
    assert (Ha : 0 < avail) by lia.
    rewrite (proj2 (Z.leb_gt avail 0) Ha) in Hf.
    set (n := Z.min (Z.min bufSize limit) avail) in *.
    destruct (Z.leb_spec (limit - n) 0); cbn [orb]; [lia |].
    destruct (Z.leb_spec (avail - n) 0); [lia |].
    assert (n = bufSize) as -> by (subst n; lia).
    replace (limit - bufSize) with (limit + (-1) * bufSize) by lia.
    rewrite Z.div_add by lia. lia.
  - change (Z.ltb 0 0) with false. cbv beta iota.
    destruct (bodyEnd io); [discriminate | intros [= _ <-]; discriminate].
Qed.

Lemma copyToWriterAt_total io offset chunkLen t e :
  copyToWriterAt io offset chunkLen = (t, Some e) -> e <> ErrFuel.
Proof.
  unfold copyToWriterAt. apply copyLoop_fuel.
  destruct (Z.leb_spec chunkLen 0); cbn [orb]; [lia |].
  pose proof (Z.div_pos chunkLen bufSize ltac:(lia) ltac:(unfold bufSize; lia)).
  destruct (Z.leb (bodyBytes io) 0); lia.
Qed.

Lemma ParseInt_range str v : strconv.ParseInt str = Some v -> Int64.in_range v.
Proof.
  unfold strconv.ParseInt.
  destruct (match str with
            | String "+" s' => (false, s')
            | String "-" s' => (true, s')
            | _ => (false, str)
            end) as [neg body].
  destruct body; [discriminate |].
  destruct (strconv.digits 0 _) as [n |]; [| discriminate].
  destruct (Z.leb_spec Int64.min_int (if neg then - n else n)); [| discriminate].
  destruct (Z.leb_spec (if neg then - n else n) Int64.max_int); [| discriminate].
  intros [= <-]. unfold Int64.in_range. lia.
Qed.

(** An accepted write ends inside the int64 range, so the end offset the
    handler computes is the exact sum. *)
Lemma copyToWriterAt_ok io str offset len wrote :
  strconv.ParseInt str = Some offset ->
  copyToWriterAt io offset len = (wrote, None) -> Z.eqb wrote len = true ->
  0 <= offset -> 0 < len ->
  Int64.add offset len = offset + len /\ offset + len <= Int64.max_int.
Proof.
  intros Hp H Hw Ho Hl. apply Z.eqb_eq in Hw. subst len.
  apply ParseInt_range in Hp.
  apply copyLoop_end in H as [_ H]; [| lia | lia | unfold Int64.in_range in Hp; lia].
  split; [| assumption].
  apply Int64_add_no_overflow. unfold Int64.in_range, Int64.min_int in *. lia.
Qed.

(** A body of at least [len] bytes and a device that writes all it is
    given: the copy moves [len] bytes and returns no error. *)
Lemma copyLoop_all io (Hd : forall off n, diskWriteAt io off n = (n, false)) fuel offset :
  0 <= offset ->
  forall total limit avail,
  0 <= total -> 0 <= limit <= avail ->
  offset + total + limit <= Int64.max_int ->
  (if Z.eqb limit 0 then 1 else limit / bufSize + 2) <= Z.of_nat fuel ->
  copyLoop io fuel offset total limit avail = (total + limit, None).
Proof.
  intros Ho. induction fuel as [| fuel IH]; intros total limit avail Ht Hl Hm Hf.
  { exfalso. destruct (Z.eqb_spec limit 0); [lia |].
    pose proof (Z.div_pos limit bufSize ltac:(lia) ltac:(unfold bufSize; lia)). lia. }
  cbn [copyLoop]. unfold limitedRead.
  destruct (Z.leb_spec limit 0) as [Hl0 | Hl0].
  { cbn. f_equal. lia. }
  set (n := Z.min (Z.min bufSize limit) avail).
  assert (Hb : 0 < bufSize) by (unfold bufSize; lia).
  assert (Hn : 0 < n <= limit) by (subst n; lia).
  rewrite (proj2 (Z.ltb_lt 0 n)) by lia.
  assert (Eot : Int64.add offset total = offset + total).
  { apply Int64_add_no_overflow. unfold Int64.in_range, Int64.min_int. lia. }
  rewrite Eot. unfold WriteAt.
  rewrite (proj2 (Z.ltb_ge (offset + total) 0)) by lia.
  rewrite (proj2 (Z.ltb_ge Int64.max_int _)) by lia.
  cbn [orb]. rewrite Hd, Z.eqb_refl. cbn [negb]. cbv beta iota.
  rewrite ?(proj2 (Z.ltb_lt 0 n)) by lia. cbv beta iota.
  assert (Etn : Int64.add total n = total + n).
  { apply Int64_add_no_overflow. unfold Int64.in_range, Int64.min_int. lia. }
  rewrite Etn, IH; [f_equal; lia | lia | lia | lia |].
  rewrite (proj2 (Z.eqb_neq limit 0)) in Hf by lia.
  pose proof (Z.div_pos limit bufSize ltac:(lia) Hb).
  destruct (Z.eqb_spec (limit - n) 0); [lia |].
  assert (n = bufSize) as -> by (subst n; lia).
  replace (limit - bufSize) with (limit + (-1) * bufSize) by lia.
  rewrite Z.div_add by lia. lia.
Qed.

Lemma copyToWriterAt_all io offset len :
  (forall off n, diskWriteAt io off n = (n, false)) ->
  0 <= offset -> 0 <= len <= bodyBytes io -> offset + len <= Int64.max_int ->
  copyToWriterAt io offset len = (len, None).
Proof.
  intros Hd Ho Hl Hm. unfold copyToWriterAt.
  rewrite (copyLoop_all io Hd); [reflexivity | lia | lia | lia | lia |].
  pose proof (Z.div_pos len bufSize ltac:(lia) ltac:(unfold bufSize; lia)).
  destruct (Z.eqb len 0); lia.
Qed.

Section Preservation.

Variable P : UploadMeta -> Prop.

Hypothesis P_init : forall id t fn rel total cs,
  0 < total ->
  P {| UploadID := id; CreatedAt := t; Filename := fn; RelPath := rel;
       TotalSize := total; ChunkSize := cs; UploadedSize := 0; Completed := false |}.

Hypothesis P_chunk : forall m e,
  P m -> Completed m = false -> UploadedSize m < e -> 0 < e <= TotalSize m ->
  e <= Int64.max_int -> P (setUploadedSize m e).

Hypothesis P_complete : forall m,
  P m -> Completed m = false -> TotalSize m <= UploadedSize m ->
  P (setCompleted m true).

Lemma fs_all_insert_meta w path m :
  fs_all P w -> P m -> forall evs, fs_all P (setFs w (<[path := FMeta m]> (fs w)) evs).
Proof.
  intros Hw Hm evs q m'. cbn [fs setFs]. rewrite lookup_insert.
  case_decide; [intros [= <-]; assumption | apply Hw].
Qed.

Lemma fs_all_delete w path :
  fs_all P w -> forall evs, fs_all P (setFs w (delete path (fs w)) evs).
Proof.
  intros Hw evs q m'. cbn [fs setFs]. rewrite lookup_delete.
  case_decide; [discriminate | apply Hw].
Qed.

Lemma fs_all_insert_data w path n :
  fs_all P w -> forall evs, fs_all P (setFs w (<[path := FData n]> (fs w)) evs).
Proof.
  intros Hw evs q m'. cbn [fs setFs]. rewrite lookup_insert.
  case_decide; [discriminate | apply Hw].
Qed.

Lemma fs_all_insert_file w path f :
  fs_all P w -> (forall m, f = FMeta m -> P m) ->
  forall evs, fs_all P (setFs w (<[path := f]> (fs w)) evs).
Proof.
  intros Hw Hf evs q m'. cbn [fs setFs]. rewrite lookup_insert.
  case_decide; [intros [= ->]; now apply Hf | apply Hw].
Qed.

Lemma fs_all_same_fs w w' : fs w' = fs w -> fs_all P w -> fs_all P w'.
Proof. intros E H q m. rewrite E. apply H. Qed.

Lemma saveMeta_fs_all s o m w ok w' :
  saveMeta s o m w = (ok, w') -> fs_all P w -> P m -> fs_all P w'.
Proof.
  unfold saveMeta. destruct o; intros [= <- <-] Hw Hm; [| assumption |].
  - intros q m'. cbn [fs setFs]. rewrite lookup_insert.
    case_decide; [intros [= <-]; assumption |].
    rewrite lookup_delete. case_decide; [discriminate | apply Hw].
  - now apply fs_all_insert_meta.
Qed.

Lemma loadMeta_P s id w m : fs_all P w -> loadMeta s id w = inr m -> P m.
Proof.
  unfold loadMeta. intros Hw. destruct (fs w !! metaPath s id) as [[m' | n] |] eqn:E;
    [intros [= <-]; eapply Hw; eauto | discriminate | discriminate].
Qed.

Lemma ensureParentDir_fs ok path w b w' :
  ensureParentDir ok path w = (b, w') ->
  fs w' = fs w /\ lastSaved w' = lastSaved w.
Proof. unfold ensureParentDir. destruct ok; intros [= <- <-]; auto. Qed.

Lemma fs_all_insert_default w path q f0 :
  fs_all P w -> (forall m, f0 = FMeta m -> P m) ->
  forall evs, fs_all P (setFs w (<[path := default f0 (fs w !! q)]> (fs w)) evs).
Proof.
  intros Hw H0 evs. apply fs_all_insert_file; [assumption |].
  intros m. destruct (fs w !! q) as [f |] eqn:E; simpl; [| apply H0].
  intros ->. eapply Hw; eauto.
Qed.

Lemma fs_all_written w path q f offset n json :
  fs_all P w -> fs w !! q = Some f ->
  (forall m, json = Some m -> int64Fields m = true -> P m) ->
  forall evs, fs_all P (setFs w (<[path := writtenAt f offset n json]> (fs w)) evs).
Proof.
  intros Hw Hf Hj evs. apply fs_all_insert_file; [assumption |].
  unfold writtenAt. destruct (Z.leb n 0); [intros m ->; eapply Hw; eauto |].
  destruct json as [m' |]; [| discriminate].
  destruct (int64Fields m') eqn:E; [| discriminate].
  intros m [= <-]. now apply Hj.
Qed.

Lemma fs_all_rename w src dst f :
  fs_all P w -> fs w !! src = Some f ->
  forall evs, fs_all P (setFs w (<[dst := f]> (delete src (fs w))) evs).
Proof.
  intros Hw Hf evs q m. cbn [fs setFs]. rewrite lookup_insert.
  case_decide; [intros [= ->]; eapply Hw; eauto |].
  rewrite lookup_delete. case_decide; [discriminate | apply Hw].
Qed.

Lemma fs_all_osRemove ok path w : fs_all P w -> fs_all P (osRemove ok path w).
Proof. unfold osRemove. destruct ok; [intros H; now apply fs_all_delete | trivial]. Qed.

Lemma lookup_open (ok : bool) (m : gmap string File) path f :
  (if ok then m !! path else None) = Some f -> m !! path = Some f.
Proof. destruct ok; [trivial | discriminate]. Qed.

Ltac fs_forward :=
  repeat match goal with
  | H : ensureParentDir _ _ ?w = (_, ?w'), Hw : fs_all P ?w |- _ =>
      let E := fresh in
      destruct (ensureParentDir_fs _ _ _ _ _ H) as [E _];
      pose proof (fs_all_same_fs _ _ E Hw); clear H
  | H : (if _ then fs _ !! _ else None) = Some _ |- _ => apply lookup_open in H
  end.

Ltac fs_goal :=
  cbn [snd];
  repeat first
    [ assumption
    | apply fs_all_insert_data
    | apply fs_all_insert_default; [| discriminate]
    | apply fs_all_osRemove
    | eapply fs_all_rename; [| eassumption]
    | eapply fs_all_written; [| eassumption | eassumption]
    | match goal with
      | |- fs_all P (setLastSaved ?w _) => apply (fs_all_same_fs w); [reflexivity |]
      | |- fs_all P (setMu ?w _) => apply (fs_all_same_fs w); [reflexivity |]
      | |- fs_all P (lock _ ?w) => apply (fs_all_same_fs w); [reflexivity |]
      end ].

Lemma handleInit_fs_all s r io w :
  fs_all P w -> fs_all P (snd (handleInit s r io w)).
Proof.
  intros Hw. unfold handleInit.
  repeat case_match; cbn [snd]; try assumption;
    match goal with
    | H : saveMeta _ _ _ _ = _, H1 : Z.leb _ 0 = false |- _ =>
        apply Z.leb_gt in H1;
        pose proof (saveMeta_fs_all _ _ _ _ _ _ H Hw (P_init _ _ _ _ _ _ H1))
    end; fs_forward; fs_goal.
Qed.

(** The record an accepted chunk leads to satisfies the invariant. *)
Lemma chunk_meta_P io str offset len wrote m :
  P m -> Completed m = false ->
  strconv.ParseInt str = Some offset ->
  Z.ltb offset 0 = false -> Z.leb len 0 = false ->
  Z.ltb (TotalSize m) (Int64.add offset len) = false ->
  copyToWriterAt io offset len = (wrote, None) ->
  negb (Z.eqb wrote len) = false ->
  P (if Z.ltb (UploadedSize m) (Int64.add offset len)
     then setUploadedSize m (Int64.add offset len) else m).
Proof.
  intros Hm Hc Hp Ho Hl Ht Hw He.
  apply Z.ltb_ge in Ho. apply Z.leb_gt in Hl. apply negb_false_iff in He.
  destruct (copyToWriterAt_ok _ _ _ _ _ Hp Hw He Ho Hl) as [E Hmax].
  rewrite E in *. apply Z.ltb_ge in Ht.
  destruct (Z.ltb_spec (UploadedSize m) (offset + len)); [| assumption].
  apply P_chunk; auto; lia.
Qed.

Lemma handleChunk_fs_all s r io w :
  (forall m, bodyJSON io = Some m -> int64Fields m = true -> P m) ->
  fs_all P w -> fs_all P (snd (handleChunk s r io w)).
Proof.
  intros Hbody Hw. unfold handleChunk.
  assert (Hl : forall id, fs_all P (lock id w)) by (intros; now apply (fs_all_same_fs w)).
  repeat case_match; cbn [snd]; try assumption; try apply Hl; try congruence; fs_forward.
  all: match goal with
    | H : loadMeta _ _ (lock ?id _) = inr _ |- _ =>
        pose proof (loadMeta_P _ _ _ _ (Hl id) H)
    end.
  all: try (fs_goal; fail).
  all: subst.
  all: match goal with
    | H : saveMeta _ _ ?m ?w1 = (_, _), Hc : copyToWriterAt _ _ _ = _ |- _ =>
        let HP := fresh in
        epose proof (chunk_meta_P _ _ _ _ _ _ ltac:(eassumption) ltac:(eassumption)
                       ltac:(eassumption)
                       ltac:(eassumption) ltac:(eassumption) ltac:(eassumption)
                       Hc ltac:(eassumption)) as HP;
        match goal with
        | Hlt : Z.ltb (UploadedSize _) _ = _ |- _ => rewrite Hlt in HP
        end;
        eapply saveMeta_fs_all in H; [| | exact HP]
    end.
  all: fs_goal.
Qed.

Lemma complete_meta_P m :
  P m -> Completed m = false -> Z.ltb (UploadedSize m) (TotalSize m) = false ->
  P (setCompleted m true).
Proof. intros Hm Hc Hlt. apply Z.ltb_ge in Hlt. now apply P_complete. Qed.

Lemma handleComplete_fs_all wd s r io w :
  fs_all P w -> fs_all P (snd (handleComplete wd s r io w)).
Proof.
  intros Hw. unfold handleComplete.
  assert (Hl : forall id, fs_all P (lock id w)) by (intros; now apply (fs_all_same_fs w)).
  repeat case_match; cbn [snd]; try assumption; try apply Hl; try congruence.
  all: match goal with
    | H : loadMeta _ _ (lock ?id _) = inr _ |- _ =>
        pose proof (loadMeta_P _ _ _ _ (Hl id) H)
    end.
  all: match goal with
    | H : ensureParentDir _ _ (lock ?id _) = _ |- _ => pose proof (Hl id)
    end.
  all: fs_forward.
  all: try (fs_goal; fail).
  all: match goal with
    | H : saveMeta _ _ (setCompleted ?m true) _ = (_, _) |- _ =>
        let HP := fresh in
        epose proof (complete_meta_P m ltac:(eassumption) ltac:(eassumption)
                       ltac:(eassumption)) as HP;
        eapply saveMeta_fs_all in H; [| | exact HP]
    end.
  all: fs_goal.
Qed.

Lemma handleCancel_fs_all s r io w :
  fs_all P w -> fs_all P (snd (handleCancel s r io w)).
Proof.
  intros Hw. unfold handleCancel.
  assert (Hl : forall id, fs_all P (lock id w)) by (intros; now apply (fs_all_same_fs w)).
  repeat case_match; cbn [snd]; try assumption; try apply Hl.
  fs_goal.
Qed.

Lemma step_fs_all wd s op w :
  bodyOk P op -> fs_all P w -> fs_all P (snd (step wd s op w)).
Proof.
  destruct op; cbn [step snd bodyOk];
    auto using handleInit_fs_all, handleChunk_fs_all, handleComplete_fs_all,
      handleCancel_fs_all.
Qed.

Lemma run_fs_all wd s ops :
  Forall (bodyOk P) ops ->
  forall w, fs_all P w -> fs_all P (snd (run wd s ops w)).
Proof.
  induction 1 as [| op ops Hop _ IH]; intros w Hw; cbn [run]; [assumption |].
  destruct (step wd s op w) as [resp w1] eqn:E.
  pose proof (step_fs_all wd s op w Hop Hw) as H1. rewrite E in H1. cbn [snd] in H1.
  specialize (IH _ H1). destruct (run wd s ops w1). exact IH.
Qed.

End Preservation.

(** The invariants of a metadata record (specification, section 3). *)
Lemma meta_inv_init id t fn rel total cs :
  0 < total ->
  meta_inv {| UploadID := id; CreatedAt := t; Filename := fn; RelPath := rel;
              TotalSize := total; ChunkSize := cs; UploadedSize := 0;
              Completed := false |}.
Proof. unfold meta_inv; cbn. intros. split; [lia | discriminate]. Qed.

Lemma meta_inv_chunk m e :
  meta_inv m -> Completed m = false -> UploadedSize m < e -> 0 < e <= TotalSize m ->
  e <= Int64.max_int -> meta_inv (setUploadedSize m e).
Proof. unfold meta_inv; cbn. intros [H1 H2] Hc. intros. split; [lia | congruence]. Qed.

Lemma meta_inv_complete m :
  meta_inv m -> Completed m = false -> TotalSize m <= UploadedSize m ->
  meta_inv (setCompleted m true).
Proof. unfold meta_inv; cbn. intros [H1 H2] Hc. intros. split; [lia | intros; lia]. Qed.

Lemma emptyWorld_fs_all (P : UploadMeta -> Prop) : fs_all P emptyWorld.
Proof. intros p m. cbn. rewrite lookup_empty. discriminate. Qed.

(** The invariants hold in every world reached by operations whose bodies
    spell no metadata record, or only records that satisfy them; each such
    operation preserves them. *)
Lemma metadata_invariant wd s :
  (forall op w, bodyOk meta_inv op -> fs_inv w -> fs_inv (snd (step wd s op w)))
  /\ (forall ops, Forall (bodyOk meta_inv) ops ->
      fs_inv (snd (run wd s ops emptyWorld))).
Proof.
  split.
  - intros op w. apply step_fs_all;
      [apply meta_inv_init | apply meta_inv_chunk | apply meta_inv_complete].
  - intros ops Hops. apply run_fs_all; auto using emptyWorld_fs_all.
    + apply meta_inv_init.
    + apply meta_inv_chunk.
    + apply meta_inv_complete.
Qed.

(** *** Ranges of the sizes kept in memory and on disk *)

Lemma meta_rng_init id t fn rel total cs :
  0 < total ->
  meta_rng {| UploadID := id; CreatedAt := t; Filename := fn; RelPath := rel;
              TotalSize := total; ChunkSize := cs; UploadedSize := 0;
              Completed := false |}.
Proof. intros. unfold meta_rng, Int64.max_int. cbn. lia. Qed.

Lemma meta_rng_chunk m e :
  meta_rng m -> Completed m = false -> UploadedSize m < e -> 0 < e <= TotalSize m ->
  e <= Int64.max_int -> meta_rng (setUploadedSize m e).
Proof. intros. assumption. Qed.

Lemma meta_rng_complete m :
  meta_rng m -> Completed m = false -> TotalSize m <= UploadedSize m ->
  meta_rng (setCompleted m true).
Proof. intros. assumption. Qed.

Lemma bodyOk_rng op : bodyOk meta_rng op.
Proof.
  destruct op; cbn [bodyOk]; trivial.
  intros m _ H. unfold int64Fields, Int64.in_rangeb in H.
  apply andb_true_iff in H as [_ H]. apply andb_true_iff in H as [_ H].
  apply Z.leb_le in H. exact H.
Qed.

Lemma step_fs_rng wd s op w : fs_all meta_rng w -> fs_all meta_rng (snd (step wd s op w)).
Proof.
  apply step_fs_all;
    [apply meta_rng_init | apply meta_rng_chunk | apply meta_rng_complete
    | apply bodyOk_rng].
Qed.

Lemma saveMeta_lastSaved s o m w ok w' :
  saveMeta s o m w = (ok, w') -> lastSaved w' = lastSaved w.
Proof. unfold saveMeta. destruct o; intros [= <- <-]; reflexivity. Qed.

Lemma osRemove_lastSaved ok path w : lastSaved (osRemove ok path w) = lastSaved w.
Proof. unfold osRemove. now destruct ok. Qed.

Ltac ls_forward :=
  repeat match goal with
  | H : ensureParentDir _ _ _ _ = (_, _) |- _ => apply ensureParentDir_fs in H as [_ H]
  | H : saveMeta _ _ _ _ = (_, _) |- _ => apply saveMeta_lastSaved in H
  | H : ensureParentDir _ _ _ = (_, _) |- _ => apply ensureParentDir_fs in H as [_ H]
  end.

Ltac ls_same :=
  cbn [snd lastSaved setFs setLastSaved setMu lock];
  repeat match goal with
  | H : lastSaved ?w' = _ |- context [lastSaved ?w'] => rewrite H
  end;
  cbn [snd lastSaved setFs setLastSaved setMu lock].

Lemma handleInit_lastSaved s r io w :
  lastSaved (snd (handleInit s r io w)) = lastSaved w.
Proof.
  unfold handleInit. repeat case_match; ls_forward; ls_same; try reflexivity;
    repeat (ls_same; try reflexivity).
Qed.

Lemma handleComplete_lastSaved wd s r io w :
  lastSaved (snd (handleComplete wd s r io w)) = lastSaved w.
Proof.
  unfold handleComplete. repeat case_match; ls_forward; ls_same; try reflexivity;
    repeat (ls_same; try reflexivity).
Qed.

Lemma ls_ok_insert (id : string) (v : Z) (l : gmap string Z) :
  (forall i x, l !! i = Some x -> 0 <= x <= Int64.max_int) ->
  0 <= v <= Int64.max_int ->
  forall i x, <[id := v]> l !! i = Some x -> 0 <= x <= Int64.max_int.
Proof.
  intros Hl Hv i x. rewrite lookup_insert. case_decide; [intros [= <-]; assumption | apply Hl].
Qed.

Lemma ls_ok_default w id : ls_ok w -> 0 <= default 0 (lastSaved w !! id) <= Int64.max_int.
Proof.
  intros Hw. destruct (lastSaved w !! id) as [v |] eqn:E; simpl;
    [eapply Hw; eauto | unfold Int64.max_int; lia].
Qed.

Lemma handleCancel_ls_ok s r io w : ls_ok w -> ls_ok (snd (handleCancel s r io w)).
Proof.
  intros Hw. unfold handleCancel. repeat case_match; cbn [snd]; try exact Hw.
  intros i x. cbn [lastSaved setMu setLastSaved]. rewrite !osRemove_lastSaved.
  cbn [lastSaved lock setMu]. rewrite lookup_delete. case_decide; [discriminate | apply Hw].
Qed.

(** The extent an accepted chunk leaves in the record is a positive int64,
    whatever the record loaded from disk says. *)
Lemma chunk_meta_bounds io str offset len wrote m :
  meta_rng m ->
  strconv.ParseInt str = Some offset ->
  Z.ltb offset 0 = false -> Z.leb len 0 = false ->
  copyToWriterAt io offset len = (wrote, None) ->
  negb (Z.eqb wrote len) = false ->
  0 <= UploadedSize (if Z.ltb (UploadedSize m) (Int64.add offset len)
                     then setUploadedSize m (Int64.add offset len) else m)
    <= Int64.max_int.
Proof.
  intros Hm Hp Ho Hl Hw He.
  apply Z.ltb_ge in Ho. apply Z.leb_gt in Hl. apply negb_false_iff in He.
  destruct (copyToWriterAt_ok _ _ _ _ _ Hp Hw He Ho Hl) as [E Hmax].
  rewrite E. unfold meta_rng in Hm.
  destruct (Z.ltb_spec (UploadedSize m) (offset + len)); cbn [UploadedSize setUploadedSize]; lia.
Qed.

Lemma handleChunk_ls_ok s r io w : world_wf w -> ls_ok (snd (handleChunk s r io w)).
Proof.
  intros [Hfs Hw]. unfold handleChunk.
  assert (Hl : forall id, fs_all meta_rng (lock id w)) by (intros; now apply (fs_all_same_fs _ w)).
  repeat case_match; cbn [snd]; try exact Hw; try congruence.
  all: match goal with
    | H : loadMeta _ _ (lock ?id _) = inr _ |- _ =>
        pose proof (loadMeta_P _ _ _ _ _ (Hl id) H)
    end.
  all: subst.
  all: try match goal with
    | Hc : copyToWriterAt _ _ _ = (_, None) |- _ =>
        let HB := fresh "HB" in
        epose proof (chunk_meta_bounds _ _ _ _ _ _ ltac:(eassumption)
                       ltac:(eassumption) ltac:(eassumption) ltac:(eassumption)
                       Hc ltac:(eassumption)) as HB;
        match goal with
        | Hlt : Z.ltb (UploadedSize _) _ = _ |- _ => rewrite Hlt in HB
        end
    end.
  all: ls_forward.
  all: intros i x; ls_same.
  all: try apply Hw.
  all: revert i x; repeat apply ls_ok_insert;
    auto using ls_ok_default.
Qed.

Lemma step_world_wf wd s op w : world_wf w -> world_wf (snd (step wd s op w)).
Proof.
  intros Hw. split; [apply step_fs_rng, Hw |]. destruct Hw as [Hfs Hls].
  destruct op; cbn [step snd].
  - intros i x. rewrite handleInit_lastSaved. apply Hls.
  - assumption.
  - now apply handleChunk_ls_ok.
  - intros i x. rewrite handleComplete_lastSaved. apply Hls.
  - now apply handleCancel_ls_ok.
Qed.

Lemma reachable_world_wf wd s w : reachable wd s w -> world_wf w.
Proof.
  intros [ops <-].
  assert (H0 : world_wf emptyWorld).
  { split; intros ? ?; cbn; rewrite lookup_empty; discriminate. }
  revert H0. generalize emptyWorld.
  induction ops as [| op ops IH]; intros w0 Hw; cbn [run]; [assumption |].
  destruct (step wd s op w0) as [resp w1] eqn:E.
  pose proof (step_world_wf wd s op w0 Hw) as H1. rewrite E in H1. cbn [snd] in H1.
  specialize (IH _ H1). destruct (run wd s ops w1). exact IH.
Qed.

(** *** Chunk requests *)

Ltac chunk_headers H :=
  let Hm := fresh "Hm" in let Hid := fresh "Hid" in let Hne := fresh "Hne" in
  let Ho := fresh "Ho" in let Hoff := fresh "Hoff" in
  let Hl1 := fresh "Hl1" in let Hl2 := fresh "Hl2" in
  destruct H as (Hm & Hid & Hne & Ho & Hoff & Hl1 & Hl2);
  unfold handleChunk; rewrite Hm, Hid, Ho;
  rewrite (proj2 (String.eqb_neq _ "") Hne);
  match goal with
  | |- context [String.eqb ?h ""] =>
      replace (String.eqb h "") with false
        by (symmetry; apply String.eqb_neq; intros E; rewrite E in Ho; discriminate)
  end;
  rewrite (proj2 (Z.ltb_ge _ 0) Hoff);
  rewrite (proj2 (Z.leb_gt _ 0) Hl1);
  rewrite (proj2 (Z.ltb_ge _ _) Hl2);
  cbn [negb String.eqb Ascii.eqb Bool.eqb andb]; cbv zeta;
  match goal with
  | |- context [loadMeta ?s ?id (lock ?id ?w)] =>
      change (loadMeta s id (lock id w)) with (loadMeta s id w)
  end.

Lemma chunk_not_found s r io w id offset :
  chunkHeadersOk s r id offset -> loadMeta s id w = inl ErrNotExist ->
  handleChunk s r io w = (httpError "not found" StatusNotFound, lock id w).
Proof. intros H Hload. chunk_headers H. now rewrite Hload. Qed.

Lemma chunk_completed s r io w id offset meta :
  chunkHeadersOk s r id offset -> loadMeta s id w = inr meta ->
  Completed meta = true ->
  handleChunk s r io w = (httpError "already completed" StatusConflict, lock id w).
Proof. intros H Hload Hc. chunk_headers H. now rewrite Hload, Hc. Qed.

Lemma chunk_out_of_range s r io w id offset meta :
  chunkHeadersOk s r id offset -> loadMeta s id w = inr meta ->
  Completed meta = false ->
  TotalSize meta < Int64.add offset (ContentLength r) ->
  handleChunk s r io w = (httpError "chunk out of range" StatusBadRequest, lock id w).
Proof.
  intros H Hload Hc Hr. chunk_headers H. rewrite Hload, Hc.
  now rewrite (proj2 (Z.ltb_lt _ _) Hr).
Qed.

Lemma setUploadedSize_id m : setUploadedSize m (UploadedSize m) = m.
Proof. now destruct m. Qed.

Lemma chunk_accept s r io w id offset meta f :
  chunkHeadersOk s r id offset -> loadMeta s id w = inr meta ->
  Completed meta = false ->
  offset + ContentLength r <= TotalSize meta ->
  chunkOpenOk io = true -> fs w !! partPath s id = Some f ->
  copyToWriterAt io offset (ContentLength r) = (ContentLength r, None) ->
  UploadedSize meta <= Int64.max_int ->
  0 <= default 0 (lastSaved w !! id) <= Int64.max_int ->
  handleChunk s r io w =
    let u := Z.max (UploadedSize meta) (offset + ContentLength r) in
    let w2 := chunkWritten s id offset (ContentLength r) (bodyJSON io) f w in
    if Z.eqb u (TotalSize meta)
       || Z.leb (metaSaveInterval s) (u - default 0 (lastSaved w !! id))
    then
      let '(ok, w3) := saveMeta s (chunkSave io) (setUploadedSize meta u) w2 in
      if ok
      then (writeJSON StatusOK (JUploaded u),
            setLastSaved w3 (<[id := u]> (lastSaved w3)))
      else (httpError "save failed" StatusInternalServerError, w3)
    else (writeJSON StatusOK (JUploaded u), w2).
Proof.
  intros H Hload Hc Hr Hopen Hf Hwr Hup Hls.
  pose proof H as (_ & _ & _ & Hp & Hoff & Hl1 & Hl2).
  destruct (copyToWriterAt_ok _ _ _ _ _ Hp Hwr (Z.eqb_refl _) Hoff Hl1) as [Eadd Hmax].
  chunk_headers H. rewrite Hload, Hc.
  rewrite Eadd. rewrite (proj2 (Z.ltb_ge _ _)) by lia.
  rewrite Hopen. cbn [fs lock setMu]. rewrite Hf, Hwr.
  rewrite Z.eqb_refl. cbn [negb lastSaved setFs setLastSaved lock setMu].
  set (u := Z.max (UploadedSize meta) (offset + ContentLength r)).
  assert (Em : (if Z.ltb (UploadedSize meta) (offset + ContentLength r)
                then setUploadedSize meta (offset + ContentLength r) else meta)
               = setUploadedSize meta u).
  { subst u. destruct (Z.ltb_spec (UploadedSize meta) (offset + ContentLength r)).
    - now rewrite Z.max_r by lia.
    - rewrite Z.max_l by lia. now rewrite setUploadedSize_id. }
  rewrite Em. cbn [UploadedSize TotalSize setUploadedSize].
  assert (Esub : Int64.sub u (default 0 (lastSaved w !! id))
                 = u - default 0 (lastSaved w !! id)).
  { apply Int64_sub_no_overflow. subst u.
    unfold Int64.in_range, Int64.min_int, Int64.max_int in *. lia. }
  rewrite Esub. unfold chunkWritten. cbv zeta.
  destruct (_ || _); [| reflexivity].
  destruct (saveMeta _ _ _ _) as [[|] w3]; reflexivity.
Qed.

Lemma unchanged_refl w : sessionStateUnchanged w w.
Proof. now repeat split. Qed.

Lemma unchanged_lock id w : sessionStateUnchanged w (lock id w).
Proof. now repeat split. Qed.

(** Header checks come first and leave everything as it was. *)
Lemma chunk_bad_offset s r io w offset :
  Method r = "PUT" ->
  strings.TrimSpace (QueryGet r "upload_id") <> "" ->
  strings.TrimSpace (HeaderGet r "X-Chunk-Offset") <> "" ->
  strconv.ParseInt (strings.TrimSpace (HeaderGet r "X-Chunk-Offset")) = Some offset ->
  offset < 0 ->
  handleChunk s r io w = (httpError "invalid offset" StatusBadRequest, w).
Proof.
  intros Hm Hid Hh Ho Hneg. unfold handleChunk. rewrite Hm, Ho.
  rewrite (proj2 (String.eqb_neq _ "") Hid), (proj2 (String.eqb_neq _ "") Hh).
  now rewrite (proj2 (Z.ltb_lt offset 0) Hneg).
Qed.

Lemma chunk_bad_length s r io w offset :
  Method r = "PUT" ->
  strings.TrimSpace (QueryGet r "upload_id") <> "" ->
  strconv.ParseInt (strings.TrimSpace (HeaderGet r "X-Chunk-Offset")) = Some offset ->
  0 <= offset -> ContentLength r <= 0 ->
  handleChunk s r io w
  = (httpError "missing/invalid Content-Length" StatusBadRequest, w).
Proof.
  intros Hm Hid Ho Hoff Hlen. unfold handleChunk. rewrite Hm, Ho.
  rewrite (proj2 (String.eqb_neq _ "") Hid).
  replace (String.eqb (strings.TrimSpace (HeaderGet r "X-Chunk-Offset")) "") with false
    by (symmetry; apply String.eqb_neq; intros E; rewrite E in Ho; discriminate).
  rewrite (proj2 (Z.ltb_ge offset 0) Hoff).
  now rewrite (proj2 (Z.leb_le _ 0) Hlen).
Qed.

Lemma chunk_too_large s r io w offset :
  Method r = "PUT" ->
  strings.TrimSpace (QueryGet r "upload_id") <> "" ->
  strconv.ParseInt (strings.TrimSpace (HeaderGet r "X-Chunk-Offset")) = Some offset ->
  0 <= offset -> 0 < ContentLength r ->
  MaxChunkBytes (limits (cfg s)) < ContentLength r ->
  handleChunk s r io w
  = (httpError "chunk too large" StatusRequestEntityTooLarge, w).
Proof.
  intros Hm Hid Ho Hoff Hlen Hmax. unfold handleChunk. rewrite Hm, Ho.
  rewrite (proj2 (String.eqb_neq _ "") Hid).
  replace (String.eqb (strings.TrimSpace (HeaderGet r "X-Chunk-Offset")) "") with false
    by (symmetry; apply String.eqb_neq; intros E; rewrite E in Ho; discriminate).
  rewrite (proj2 (Z.ltb_ge offset 0) Hoff).
  rewrite (proj2 (Z.leb_gt _ 0) Hlen).
  now rewrite (proj2 (Z.ltb_lt _ _) Hmax).
Qed.

(** A chunk inside the declared size is answered 200 or 500, never 400. *)
Lemma chunk_in_range_status s r io w id offset meta :
  chunkHeadersOk s r id offset -> loadMeta s id w = inr meta ->
  Completed meta = false ->
  Int64.add offset (ContentLength r) <= TotalSize meta ->
  status (fst (handleChunk s r io w)) = StatusOK
  \/ status (fst (handleChunk s r io w)) = StatusInternalServerError.
Proof.
  intros H Hload Hc Hr. chunk_headers H. rewrite Hload, Hc.
  rewrite (proj2 (Z.ltb_ge _ _) Hr).
  repeat case_match; cbn [fst status httpError writeJSON]; auto.
Qed.

(** C4 (amended).  The header checks of chunk come before the session is
    looked up: a negative offset or a length [<= 0] is answered 400 and a
    length above the configured maximum 413.  Only then: 404 when no
    metadata exists, otherwise 409 when the session is completed, otherwise
    400 exactly when [offset + length > total_size] (for sums inside
    int64).  Each of these rejections leaves files, persisted sizes and the
    trace of system calls as they were. *)
Theorem C4_chunk_rejections s r io w id offset :
  Method r = "PUT" ->
  strings.TrimSpace (QueryGet r "upload_id") = id -> id <> "" ->
  strconv.ParseInt (strings.TrimSpace (HeaderGet r "X-Chunk-Offset")) = Some offset ->
  let len := ContentLength r in
  let resp := fst (handleChunk s r io w) in
  let w' := snd (handleChunk s r io w) in
  (offset < 0 \/ len <= 0 ->
     status resp = StatusBadRequest /\ sessionStateUnchanged w w')
  /\ (0 <= offset -> 0 < len -> MaxChunkBytes (limits (cfg s)) < len ->
     status resp = StatusRequestEntityTooLarge /\ sessionStateUnchanged w w')
  /\ (0 <= offset -> 0 < len <= MaxChunkBytes (limits (cfg s)) ->
      (loadMeta s id w = inl ErrNotExist ->
         status resp = StatusNotFound /\ sessionStateUnchanged w w')
      /\ (forall meta, loadMeta s id w = inr meta ->
          (Completed meta = true ->
             status resp = StatusConflict /\ sessionStateUnchanged w w')
          /\ (Completed meta = false -> offset + len <= Int64.max_int ->
              (status resp = StatusBadRequest <-> TotalSize meta < offset + len)
              /\ (TotalSize meta < offset + len -> sessionStateUnchanged w w')))).
Proof.
  intros Hm Hid Hne Ho len resp w'. subst len resp w'.
  assert (Hh : strings.TrimSpace (HeaderGet r "X-Chunk-Offset") <> "")
    by (intros E; rewrite E in Ho; discriminate).
  rewrite <- Hid in Hne.
  split; [| split].
  - intros [Hneg | Hlen].
    + rewrite (chunk_bad_offset _ _ _ _ _ Hm Hne Hh Ho Hneg).
      split; [reflexivity | apply unchanged_refl].
    + destruct (Z_lt_le_dec offset 0) as [Hneg | Hoff].
      * rewrite (chunk_bad_offset _ _ _ _ _ Hm Hne Hh Ho Hneg).
        split; [reflexivity | apply unchanged_refl].
      * rewrite (chunk_bad_length _ _ _ _ _ Hm Hne Ho Hoff Hlen).
        split; [reflexivity | apply unchanged_refl].
  - intros Hoff Hlen Hmax.
    rewrite (chunk_too_large _ _ _ _ _ Hm Hne Ho Hoff Hlen Hmax).
    split; [reflexivity | apply unchanged_refl].
  - intros Hoff Hlen.
    assert (H : chunkHeadersOk s r id offset).
    { rewrite Hid in Hne. unfold chunkHeadersOk. repeat split; try assumption; lia. }
    split.
    + intros Hload. rewrite (chunk_not_found _ _ _ _ _ _ H Hload).
      split; [reflexivity | apply unchanged_lock].
    + intros meta Hload. split.
      * intros Hc. rewrite (chunk_completed _ _ _ _ _ _ _ H Hload Hc).
        split; [reflexivity | apply unchanged_lock].
      * intros Hc Hmax.
        assert (Eadd : Int64.add offset (ContentLength r) = offset + ContentLength r).
        { apply Int64_add_no_overflow. unfold Int64.in_range, Int64.min_int in *. lia. }
        split; [split |].
        -- intros Hst. destruct (Z_lt_le_dec (TotalSize meta) (offset + ContentLength r))
             as [Hgt | Hle]; [assumption | exfalso].
           rewrite <- Eadd in Hle.
           destruct (chunk_in_range_status _ _ io w _ _ _ H Hload Hc Hle) as [E | E];
             rewrite E in Hst; discriminate.
        -- intros Hgt. rewrite <- Eadd in Hgt.
           now rewrite (chunk_out_of_range _ _ _ _ _ _ _ H Hload Hc Hgt).
        -- intros Hgt. rewrite <- Eadd in Hgt.
           rewrite (chunk_out_of_range _ _ _ _ _ _ _ H Hload Hc Hgt).
           apply unchanged_lock.
Qed.

(** *** The persistence throttle *)

Lemma newServer_interval wd c s :
  newServer wd c = Some s -> Int64.in_range (MaxChunkBytes (limits c)) ->
  cfg s = c
  /\ metaSaveInterval s = Z.max (64 * 1024 * 1024) (Z.quot (MaxChunkBytes (limits c)) 2).
Proof.
  unfold newServer. destruct (filepath.Abs wd _); [| discriminate].
  intros [= <-] Hr. cbn [cfg metaSaveInterval]. split; [reflexivity |].
  unfold maxInt64, Int64.div. rewrite Int64_wrap_id.
  - destruct (Z.ltb_spec (Z.quot (MaxChunkBytes (limits c)) 2) (64 * 1024 * 1024)); lia.
  - unfold Int64.in_range, Int64.min_int, Int64.max_int in *.
    pose proof (Z.quot_lt_upper_bound (MaxChunkBytes (limits c)) 2).
    destruct (Z_le_gt_dec 0 (MaxChunkBytes (limits c))).
    + pose proof (Z.quot_pos (MaxChunkBytes (limits c)) 2 ltac:(lia) ltac:(lia)).
      pose proof (Z.quot_le_upper_bound (MaxChunkBytes (limits c)) 2 (2 ^ 63 - 1)
                    ltac:(lia) ltac:(lia)). lia.
    + pose proof (Z.quot_opp_l (MaxChunkBytes (limits c)) 2 ltac:(lia)).
      pose proof (Z.quot_pos (- MaxChunkBytes (limits c)) 2 ltac:(lia) ltac:(lia)).
      pose proof (Z.quot_le_upper_bound (- MaxChunkBytes (limits c)) 2 (2 ^ 63)
                    ltac:(lia) ltac:(lia)). lia.
Qed.

(** C6.  After a successful chunk write the new extent [u] is the maximum
    of the stored one and [offset + length].  [saveMeta] runs, and the
    remembered persisted size becomes [u], if and only if [u = total_size] or
    [u] is at least [max (64 MiB, max_chunk_bytes / 2)] above the size last
    persisted for the id; otherwise the chunk is answered without touching
    the metadata file. *)
Theorem C6_throttled_persistence wd c s r io w id offset meta f :
  newServer wd c = Some s ->
  Int64.in_range (MaxChunkBytes (limits c)) ->
  reachable wd s w ->
  chunkHeadersOk s r id offset ->
  loadMeta s id w = inr meta -> Completed meta = false ->
  offset + ContentLength r <= TotalSize meta ->
  chunkOpenOk io = true -> fs w !! partPath s id = Some f ->
  copyToWriterAt io offset (ContentLength r) = (ContentLength r, None) ->
  let len := ContentLength r in
  let u := Z.max (UploadedSize meta) (offset + len) in
  let threshold := Z.max (64 * 1024 * 1024) (Z.quot (MaxChunkBytes (limits c)) 2) in
  let persisted := default 0 (lastSaved w !! id) in
  let resp := fst (handleChunk s r io w) in
  let w' := snd (handleChunk s r io w) in
  let path := metaPath s (UploadID meta) in
  (u = TotalSize meta \/ threshold <= u - persisted ->
     chunkSave io = SaveDone ->
     resp = writeJSON StatusOK (JUploaded u)
     /\ log w' = (log w ++ [EvWriteAt (partPath s id) offset len;
                            EvWriteFile (path +:+ ".tmp") (setUploadedSize meta u);
                            EvSaveMeta path (setUploadedSize meta u)])%list
     /\ fs w' !! path = Some (FMeta (setUploadedSize meta u))
     /\ lastSaved w' !! id = Some u)
  /\ (~ (u = TotalSize meta \/ threshold <= u - persisted) ->
     resp = writeJSON StatusOK (JUploaded u)
     /\ log w' = (log w ++ [EvWriteAt (partPath s id) offset len])%list
     /\ (forall p, p <> partPath s id -> fs w' !! p = fs w !! p)
     /\ lastSaved w' !! id = Some persisted).
Proof.
  intros Hnew Hcfg Hreach H Hload Hc Hr Hopen Hf Hwr.
  intros len u threshold persisted resp w' path.
  destruct (newServer_interval _ _ _ Hnew Hcfg) as [Ecfg Eint].
  destruct (reachable_world_wf _ _ _ Hreach) as [Hfs Hls].
  pose proof (loadMeta_P _ _ _ _ _ Hfs Hload) as Hup. unfold meta_rng in Hup.
  pose proof (ls_ok_default _ id Hls) as Hd.
  pose proof (chunk_accept _ _ io _ _ _ _ _ H Hload Hc Hr Hopen Hf Hwr Hup Hd) as E.
  cbv zeta in E. rewrite Eint in E. fold len u threshold persisted in E.
  subst resp w'. rewrite E. clear E.
  destruct (Z.eqb_spec u (TotalSize meta)) as [Hu | Hu]; cbn [orb].
  - split; [| intros Hn; exfalso; auto].
    intros _ Hs. rewrite Hs. unfold saveMeta. cbn [fst snd UploadID setUploadedSize].
    repeat split.
    + cbn [log setLastSaved setFs chunkWritten lock setMu]. now rewrite <- app_assoc.
    + cbn [fs setLastSaved setFs]. apply lookup_insert_eq.
    + cbn [lastSaved setLastSaved]. apply lookup_insert_eq.
  - destruct (Z.leb_spec threshold (u - persisted)) as [Ht | Ht].
    + split; [| intros Hn; exfalso; auto].
      intros _ Hs. rewrite Hs. unfold saveMeta. cbn [fst snd UploadID setUploadedSize].
      repeat split.
      * cbn [log setLastSaved setFs chunkWritten lock setMu]. now rewrite <- app_assoc.
      * cbn [fs setLastSaved setFs]. apply lookup_insert_eq.
      * cbn [lastSaved setLastSaved]. apply lookup_insert_eq.
    + split; [intros [? | ?]; [contradiction | lia] |].
      intros _. cbn [fst snd]. repeat split.
      * intros p Hp. cbn [fs chunkWritten setLastSaved setFs]. now apply lookup_insert_ne.
      * cbn [lastSaved chunkWritten setLastSaved]. apply lookup_insert_eq.
Qed.

(** *** Status, complete and cancel *)


Lemma status_found s r w id meta :
  Method r = "GET" -> idHeadersOk r id -> loadMeta s id w = inr meta ->
  handleStatus s r w = writeJSON StatusOK (JMeta meta).
Proof.
  intros Hm [Hid Hne] Hload. unfold handleStatus. rewrite Hm, Hid.
  rewrite (proj2 (String.eqb_neq _ "") Hne). cbn [negb String.eqb Ascii.eqb Bool.eqb].
  now rewrite Hload.
Qed.

Ltac id_headers Hm H :=
  let Hid := fresh "Hid" in let Hne := fresh "Hne" in
  destruct H as [Hid Hne]; rewrite Hm, Hid;
  rewrite (proj2 (String.eqb_neq _ "") Hne);
  cbn [negb String.eqb Ascii.eqb Bool.eqb orb]; cbv zeta;
  match goal with
  | |- context [loadMeta ?s ?id (lock ?id ?w)] =>
      change (loadMeta s id (lock id w)) with (loadMeta s id w)
  end.


Lemma complete_conflict wd s r io w id meta :
  Method r = "POST" -> idHeadersOk r id -> loadMeta s id w = inr meta ->
  Completed meta = false -> UploadedSize meta < TotalSize meta ->
  handleComplete wd s r io w = (httpError "not fully uploaded" StatusConflict, lock id w).
Proof.
  intros Hm H Hload Hc Hlt. unfold handleComplete. id_headers Hm H.
  rewrite Hload, Hc. now rewrite (proj2 (Z.ltb_lt _ _) Hlt).
Qed.

Lemma complete_again wd s r io w id meta :
  Method r = "POST" -> idHeadersOk r id -> loadMeta s id w = inr meta ->
  Completed meta = true ->
  handleComplete wd s r io w
  = (writeJSON StatusOK
       (JCompleted match finalAbsPath wd s (RelPath meta) with
                   | inr p => p | inl _ => "" end),
     lock id w).
Proof.
  intros Hm H Hload Hc. unfold handleComplete. id_headers Hm H. now rewrite Hload, Hc.
Qed.

Lemma complete_invalid_path wd s r io w id meta e :
  Method r = "POST" -> idHeadersOk r id -> loadMeta s id w = inr meta ->
  Completed meta = false -> TotalSize meta <= UploadedSize meta ->
  finalAbsPath wd s (RelPath meta) = inl e ->
  handleComplete wd s r io w = (httpError "invalid path" StatusBadRequest, lock id w).
Proof.
  intros Hm H Hload Hc Hge He. unfold handleComplete. id_headers Hm H.
  rewrite Hload, Hc, He. now rewrite (proj2 (Z.ltb_ge _ _) Hge).
Qed.

Lemma complete_finalize wd s r io w id meta finalAbs f :
  Method r = "POST" -> idHeadersOk r id -> loadMeta s id w = inr meta ->
  Completed meta = false -> TotalSize meta <= UploadedSize meta ->
  finalAbsPath wd s (RelPath meta) = inr finalAbs ->
  completeMkdirOk io = true -> completeRenameOk io = true ->
  fs w !! partPath s id = Some f -> completeSave io = SaveDone ->
  handleComplete wd s r io w
  = (writeJSON StatusOK (JCompleted finalAbs), completed s id finalAbs meta f w).
Proof.
  intros Hm H Hload Hc Hge Hp Hmk Hrn Hf Hs. unfold handleComplete. id_headers Hm H.
  rewrite Hload, Hc, Hp, (proj2 (Z.ltb_ge _ _) Hge).
  unfold ensureParentDir. rewrite Hmk, Hrn, Hs.
  cbn [negb fs setFs lock setMu]. rewrite Hf. reflexivity.
Qed.

Lemma completed_loadMeta s id finalAbs meta f w :
  UploadID meta = id ->
  loadMeta s id (completed s id finalAbs meta f w) = inr (setCompleted meta true).
Proof.
  intros <-. unfold loadMeta, completed, saveMeta.
  cbn [snd fs setFs UploadID setCompleted]. now rewrite lookup_insert_eq.
Qed.

(** Finalisation followed by any number of repeated calls: each returns the
    path of the first. *)
Lemma complete_idempotent wd s r io r' io' w id meta finalAbs f :
  Method r = "POST" -> idHeadersOk r id ->
  Method r' = "POST" -> idHeadersOk r' id ->
  loadMeta s id w = inr meta -> UploadID meta = id ->
  Completed meta = false -> TotalSize meta <= UploadedSize meta ->
  finalAbsPath wd s (RelPath meta) = inr finalAbs ->
  completeMkdirOk io = true -> completeRenameOk io = true ->
  fs w !! partPath s id = Some f -> completeSave io = SaveDone ->
  fst (handleComplete wd s r io w) = writeJSON StatusOK (JCompleted finalAbs)
  /\ fst (handleComplete wd s r' io' (snd (handleComplete wd s r io w)))
     = writeJSON StatusOK (JCompleted finalAbs).
Proof.
  intros Hm H Hm' H' Hload Hid Hc Hge Hp Hmk Hrn Hf Hs.
  rewrite (complete_finalize _ _ _ _ _ _ _ _ _ Hm H Hload Hc Hge Hp Hmk Hrn Hf Hs).
  split; [reflexivity |]. cbn [snd].
  rewrite (complete_again _ _ _ _ _ _ _ Hm' H' (completed_loadMeta _ _ _ _ _ _ Hid) eq_refl).
  cbn [fst RelPath setCompleted]. now rewrite Hp.
Qed.







(** *** Init *)

Ltac init_sizes Hm Hj Hs :=
  let H1 := fresh in let H2 := fresh in let H3 := fresh in let H4 := fresh in
  destruct Hs as (H1 & H2 & H3 & H4);
  unfold handleInit; rewrite Hm, Hj;
  cbn [negb String.eqb Ascii.eqb Bool.eqb]; cbv zeta;
  rewrite (proj2 (Z.leb_gt _ 0) H1);
  match goal with
  | |- context [Z.ltb 0 ?m && Z.ltb ?m ?t] =>
      replace (Z.ltb 0 m && Z.ltb m t) with false
        by (symmetry; destruct (Z.ltb_spec 0 m); [| reflexivity];
            cbn [andb]; apply Z.ltb_ge; auto)
  end;
  rewrite (proj2 (Z.leb_gt _ 0) H3), (proj2 (Z.ltb_ge _ _) H4);
  cbn [orb].




(* ===================================================================== *)
(** ** The directory tree *)
(* ===================================================================== *)

(** *** More on paths: the last element *)

Lemma append_assoc (a b c : string) : (a +:+ b) +:+ c = a +:+ (b +:+ c).
Proof.
  induction a as [| x a IH]; [reflexivity |].
  change (String x ((a +:+ b) +:+ c) = String x (a +:+ (b +:+ c))). now rewrite IH.
Qed.

Lemma real_nonempty e : real e -> e <> "".
Proof. now intros (? & _). Qed.

Lemma real_nosep e : real e -> nosep e.
Proof. now intros (_ & _ & _ & ?). Qed.

Lemma Forall_real_nosep es : Forall real es -> Forall nosep es.
Proof. intros H. eapply Forall_impl; [exact H | apply real_nosep]. Qed.

(** Trailing separators are stripped only when the path ends with one. *)
Lemma stripTrailingSlashes_nosep e :
  e <> "" -> nosep e -> filepath.stripTrailingSlashes e = e.
Proof.
  unfold nosep. induction e as [| c e IH]; [congruence |]. intros _ H.
  cbn [strings.contains_slash] in H. apply orb_false_iff in H as [Hc He].
  cbn [filepath.stripTrailingSlashes]. destruct e as [| d e].
  - cbn [filepath.stripTrailingSlashes]. now rewrite Hc.
  - rewrite IH by (assumption || discriminate). reflexivity.
Qed.

Lemma stripTrailingSlashes_app a e :
  e <> "" -> nosep e -> filepath.stripTrailingSlashes (a +:+ e) = a +:+ e.
Proof.
  intros Hne He. induction a as [| c a IH].
  - now apply stripTrailingSlashes_nosep.
  - change (String c a +:+ e) with (String c (a +:+ e)).
    cbn [filepath.stripTrailingSlashes]. rewrite IH.
    destruct (a +:+ e) eqn:E; [| reflexivity].
    destruct a; [change (e = "") in E; congruence | discriminate].
Qed.

Lemma rooted_Join_snoc xs e :
  exists a, String strings.slash (strings.Join (xs ++ [e])) = a +:+ e.
Proof.
  induction xs as [| x xs [a IH]].
  - now exists "/".
  - exists (String strings.slash (x +:+ a)).
    change ((x :: xs) ++ [e])%list with (x :: (xs ++ [e]))%list.
    rewrite Join_cons by now destruct xs.
    change (String strings.slash (x +:+ a) +:+ e)
      with (String strings.slash ((x +:+ a) +:+ e)).
    now rewrite append_assoc, <- IH.
Qed.

Lemma Base_rooted_snoc xs e :
  Forall real xs -> real e ->
  filepath.Base (String strings.slash (strings.Join (xs ++ [e]))) = e.
Proof.
  intros Hxs He. unfold filepath.Base. cbn [String.eqb].
  destruct (rooted_Join_snoc xs e) as [a Ea].
  rewrite Ea, stripTrailingSlashes_app by (apply He).
  rewrite <- Ea. rewrite Split_slash.
  rewrite Split_Join; [| now destruct xs |].
  - change ("" :: xs ++ [e])%list with (("" :: xs) ++ [e])%list. apply List.last_last.
  - apply Forall_real_nosep, Forall_app. split; [assumption | now constructor].
Qed.

Lemma Join_real_unrooted rs e :
  Forall real rs -> real e ->
  strings.Join (rs ++ [e]) <> ""
  /\ strings.HasPrefix (strings.Join (rs ++ [e])) "/" = false.
Proof.
  intros Hrs He.
  assert (H : forall x t, real x ->
              x +:+ t <> "" /\ strings.HasPrefix (x +:+ t) "/" = false).
  { intros x t (Hx & _ & _ & Hs). unfold nosep in Hs.
    destruct x as [| c x]; [congruence |]. split; [discriminate |].
    cbn [strings.contains_slash] in Hs. apply orb_false_iff in Hs as [Hc _].
    change (String c x +:+ t) with (String c (x +:+ t)). cbn [strings.HasPrefix].
    destruct (Ascii.eqb_spec "/"%char c) as [<- | ?]; [discriminate | reflexivity]. }
  destruct rs as [| r rs].
  - cbn [app strings.Join]. specialize (H e "" He). now rewrite append_nil_r in H.
  - change ((r :: rs) ++ [e])%list with (r :: (rs ++ [e]))%list.
    rewrite Join_cons by now destruct rs.
    apply H. now apply Forall_cons in Hrs as [? _].
Qed.

Lemma cleanElems_all_real r es : Forall real es -> filepath.cleanElems r es = es.
Proof.
  intros H. change es with ([] ++ es)%list at 1.
  now rewrite cleanElems_app_real.
Qed.

(** Joining one more real element to a relative path of real elements. *)
Lemma Join_rel_child rs e name :
  Forall real rs -> real e -> real name ->
  filepath.Join [strings.Join (rs ++ [e]); name]
  = strings.Join ((rs ++ [e]) ++ [name]).
Proof.
  intros Hrs He Hn.
  destruct (Join_real_unrooted rs e Hrs He) as [Hne Hpre].
  assert (Hall : Forall real ((rs ++ [e]) ++ [name]))
    by (repeat (apply Forall_app; split); auto).
  cbn [filepath.Join]. rewrite (proj2 (String.eqb_neq _ "") Hne).
  change (strings.Join [strings.Join (rs ++ [e]); name])
    with (strings.Join (rs ++ [e]) +:+ String strings.slash name).
  unfold filepath.Clean.
  replace (String.eqb (strings.Join (rs ++ [e]) +:+ String strings.slash name) "")
    with false.
  2:{ symmetry. apply String.eqb_neq. intros E.
      destruct (strings.Join (rs ++ [e])); [congruence | discriminate]. }
  replace (strings.HasPrefix (strings.Join (rs ++ [e]) +:+ String strings.slash name) "/")
    with false.
  2:{ symmetry. destruct (strings.Join (rs ++ [e])) as [| c x]; [congruence |].
      change (String c x +:+ String strings.slash name)
        with (String c (x +:+ String strings.slash name)).
      cbn [strings.HasPrefix] in *. now destruct (Ascii.eqb "/" c). }
  rewrite Split_app_slash.
  rewrite Split_Join by (try apply Forall_real_nosep; try apply Forall_app; auto;
                         now destruct rs).
  rewrite (Split_single name) by (apply Hn).
  rewrite !(cleanElems_all_real false) by assumption.
  destruct ((rs ++ [e]) ++ [name])%list eqn:E; [| reflexivity].
  now destruct rs.
Qed.

(** *** The directory scan *)

Section TreeFacts.

Variable wd : option string.
Variable s : Server.
Variable readDir : string -> option (list DirEntry).
Variables maxDepth maxEntries : Z.

Hypothesis rootIsAbs : filepath.IsAbs (rootAbs s) = true.
Hypothesis readDirReal : readDirOk readDir.

Abbreviation scan := (build wd s readDir maxDepth maxEntries).
Abbreviation scanLoop := (buildLoop wd s maxEntries).

Lemma below_relDir absDir relDir name :
  below s absDir relDir name -> String.eqb relDir "" = false.
Proof.
  intros (rs & Hrs & Hn & _ & ->). apply String.eqb_neq.
  now destruct (Join_real_unrooted rs name Hrs Hn).
Qed.

Lemma below_resolved absDir relDir name :
  below s absDir relDir name ->
  filepath.Join [rootAbs s; relDir] = absDir
  /\ isSubpath absDir (rootAbs s) = true
  /\ filepath.Base absDir = name
  /\ filepath.Abs wd absDir = Some absDir.
Proof.
  intros (rs & Hrs & Hn & -> & ->).
  assert (Hall : Forall real (rs ++ [name])) by (apply Forall_app; auto).
  assert (HR : Forall real (rootElems (rootAbs s))) by now apply rootElems_real.
  split; [| split; [| split]].
  - apply Join_root_rel; [assumption | assumption |]. right. split; [now destruct rs | reflexivity].
  - now apply isSubpath_below.
  - rewrite app_assoc. apply Base_rooted_snoc; [apply Forall_app; auto | assumption].
  - unfold filepath.Abs, filepath.IsAbs. rewrite rooted_HasPrefix.
    rewrite Clean_rooted_real; [reflexivity |]. apply Forall_app; auto.
Qed.

Lemma child_of_root name :
  real name ->
  below s (filepath.Join [rootAbs s; name]) name name.
Proof.
  intros Hn. exists []. split; [constructor |]. split; [assumption |].
  split; [| reflexivity]. cbn [app].
  apply (Join_root_rel _ name [name]);
    [assumption | constructor; [assumption | constructor] |]. right.
  split; [discriminate | reflexivity].
Qed.

Lemma child_of_below absDir relDir nm name :
  below s absDir relDir nm -> real name ->
  below s (filepath.Join [absDir; name]) (filepath.Join [relDir; name]) name.
Proof.
  intros (rs & Hrs & Hnm & -> & ->) Hn.
  assert (Hall : Forall real (rs ++ [nm])) by (apply Forall_app; auto).
  assert (HR : Forall real (rootElems (rootAbs s))) by now apply rootElems_real.
  exists (rs ++ [nm])%list. split; [assumption |]. split; [assumption |]. split.
  - rewrite (Join_root_rel _ name [name]);
      [| reflexivity | constructor; [assumption | constructor] |].
    + unfold rootElems at 1. rewrite cleanElems_rooted_Join by (apply Forall_app; auto).
      now rewrite <- !app_assoc.
    + right. split; [discriminate | reflexivity].
  - now apply Join_rel_child.
Qed.

(** The fields of the node [build] returns. *)
Lemma build_fields fuel absDir relDir depth entries node err entries' :
  scan fuel absDir relDir depth entries = Some (node, err, entries') ->
  nodeRelPath node = relDir
  /\ nodeName node
     = (if String.eqb relDir "" then filepath.Base (rootAbs s) else filepath.Base absDir).
Proof.
  destruct fuel; cbn [build]; cbv zeta;
    repeat case_match; intros [= <- <- <-]; auto.
Qed.



End TreeFacts.

(** *** Termination and errors of the scan *)

Section TreeTotal.

Variable wd : option string.
Variable s : Server.
Variable readDir : string -> option (list DirEntry).
Variables maxDepth maxEntries : Z.

Abbreviation build' := (build wd s readDir maxDepth maxEntries).
Abbreviation buildLoop' := (buildLoop wd s maxEntries).




End TreeTotal.

(** *** The limits of a tree request *)



Lemma queryLimit_range r key lo hi dflt :
  lo <= dflt <= hi -> lo <= queryLimit r key lo hi dflt <= hi.
Proof.
  unfold queryLimit. intros Hd. destruct (String.eqb _ ""); [assumption |].
  destruct (strconv.ParseInt _) as [n |]; [| assumption].
  destruct (Z.leb_spec lo n), (Z.leb_spec n hi); cbn [andb]; lia.
Qed.




(* ===================================================================== *)
(** ** Concrete runs *)
(* ===================================================================== *)

Lemma exampleServer_new : newServer None exampleConfig = Some exampleServer.
Proof. reflexivity. Qed.

Lemma exampleWorld_reachable : reachable None exampleServer exampleWorld.
Proof. exists [exampleInit]. reflexivity. Qed.

Lemma exampleWorld_meta : loadMeta exampleServer "U" exampleWorld = inr exampleMeta.
Proof. vm_compute. reflexivity. Qed.

Lemma exampleWorld_part :
  fs exampleWorld !! partPath exampleServer "U" = Some (FData 104857600).
Proof. vm_compute. reflexivity. Qed.

(** The invariants after init and two plain chunks. *)
Example plain_run_invariant :
  fs_inv (snd (run None exampleServer
                 [exampleInit;
                  OpChunk (chunkRequest "U" "0" 16777216) (chunkOk 16777216);
                  OpChunk (chunkRequest "U" "16777216" 16777216) (chunkOk 16777216)]
                 emptyWorld)).
Proof.
  apply (proj2 (metadata_invariant None exampleServer)).
  repeat (constructor; [cbn; try discriminate; exact I |]). constructor.
Qed.

(** C2 (the code departs from the claim).  The state directory lies inside
    the storage root and the path resolver accepts a target in it.  Session
    [B] is created with total size 10.  Session [A] is created with the
    target [.go-upload_state/B.json] and receives the 19 bytes
    [{"uploaded_size":9}]; complete renames its part file over the metadata
    file of [B].  Status of [B] then returns a record with uploaded_size 9
    and total_size 0, which breaks [0 <= uploaded_size <= total_size]. *)
Theorem C2_metadata_overwritten :
  fst (run None exampleServer
         [OpInit (initRequest "b.bin" "docs/b.bin" 10 5) (initOk "B");
          OpStatus (idRequest "GET" "B");
          OpInit (initRequest "x" ".go-upload_state/B.json" 19 19) (initOk "A");
          OpChunk (chunkRequest "A" "0" 19) chunkCrafted;
          OpComplete (idRequest "POST" "A") completeOk;
          OpStatus (idRequest "GET" "B")] emptyWorld)
  = [ writeJSON StatusOK (JInit "B" 0);
      writeJSON StatusOK
        (JMeta {| UploadID := "B"; CreatedAt := 0; Filename := "b.bin";
                  RelPath := "docs/b.bin"; TotalSize := 10; ChunkSize := 5;
                  UploadedSize := 0; Completed := false |});
      writeJSON StatusOK (JInit "A" 0);
      writeJSON StatusOK (JUploaded 19);
      writeJSON StatusOK (JCompleted "/srv/uploads/.go-upload_state/B.json");
      writeJSON StatusOK (JMeta craftedMeta) ]
  /\ UploadedSize craftedMeta = 9 /\ TotalSize craftedMeta = 0
  /\ ~ meta_inv craftedMeta.
Proof.
  split; [vm_compute; reflexivity |]. split; [reflexivity |]. split; [reflexivity |].
  unfold meta_inv. cbn. lia.
Qed.

(** C3 (the code departs from the claim).  A session whose path is [/ /] is
    accepted by init with the relative path [ ] (one space); when all its
    bytes have arrived, complete answers 400 "invalid path" and keeps doing
    so, because [finalAbsPath] sanitizes the stored path again and a lone
    space trims to the empty path. *)
Theorem C3_complete_rejects_received_session :
  fst (run None exampleServer
         [OpInit (initRequest "f" "/ /" 1 1) (initOk "U");
          OpChunk (chunkRequest "U" "0" 1) (chunkOk 1);
          OpStatus (idRequest "GET" "U");
          OpComplete (idRequest "POST" "U") completeOk;
          OpComplete (idRequest "POST" "U") completeOk] emptyWorld)
  = [ writeJSON StatusOK (JInit "U" 0);
      writeJSON StatusOK (JUploaded 1);
      writeJSON StatusOK
        (JMeta {| UploadID := "U"; CreatedAt := 0; Filename := "f"; RelPath := " ";
                  TotalSize := 1; ChunkSize := 1; UploadedSize := 1;
                  Completed := false |});
      httpError "invalid path" StatusBadRequest;
      httpError "invalid path" StatusBadRequest ].
Proof. vm_compute. reflexivity. Qed.

(** C4 as stated fails: for an id without metadata the request with a
    negative offset is answered 400, not 404, and a chunk above the
    configured maximum is answered 413. *)
Lemma C4_counterexample :
  loadMeta exampleServer "nosuch" emptyWorld = inl ErrNotExist
  /\ handleChunk exampleServer (chunkRequest "nosuch" "-1" 5) (chunkOk 5) emptyWorld
     = (httpError "invalid offset" StatusBadRequest, emptyWorld)
  /\ status (fst (handleChunk exampleServer (chunkRequest "U" "0" 134217729)
                    (chunkOk 134217729) exampleWorld))
     = StatusRequestEntityTooLarge.
Proof. repeat split; vm_compute; reflexivity. Qed.

(** C4, witness: a chunk that ends past the declared size of the example
    session. *)
Lemma C4_chunk_rejections_witness :
  Method (chunkRequest "U" "104857000" 1000) = "PUT"
  /\ strconv.ParseInt "104857000" = Some 104857000
  /\ status (fst (handleChunk exampleServer (chunkRequest "U" "104857000" 1000)
                    (chunkOk 1000) exampleWorld)) = StatusBadRequest.
Proof.
  split; [reflexivity |]. split; [reflexivity |].
  pose proof (C4_chunk_rejections exampleServer (chunkRequest "U" "104857000" 1000)
                (chunkOk 1000) exampleWorld "U" 104857000
                eq_refl eq_refl ltac:(discriminate) eq_refl) as H.
  cbv zeta in H. destruct H as (_ & _ & H).
  destruct (H ltac:(lia) ltac:(vm_compute; split; [reflexivity | discriminate]))
    as [_ H2].
  destruct (H2 exampleMeta exampleWorld_meta) as [_ H3].
  destruct (H3 eq_refl ltac:(vm_compute; discriminate)) as [H4 _].
  apply H4. vm_compute. reflexivity.
Defined.

(** C5 (the code departs from the claim).  With total size 1000 the chunk
    [0, 10) is accepted and answered with uploaded_size 10; nothing is
    flushed, so the next accepted chunk [0, 5) starts again from the stored
    0 and is answered with uploaded_size 5, and status still reports 0. *)
Theorem C5_uploaded_size_regresses :
  fst (run None exampleServer
         [OpInit (initRequest "a.bin" "x/a.bin" 1000 5) (initOk "U");
          OpChunk (chunkRequest "U" "0" 10) (chunkOk 10);
          OpChunk (chunkRequest "U" "0" 5) (chunkOk 5);
          OpStatus (idRequest "GET" "U")] emptyWorld)
  = [ writeJSON StatusOK (JInit "U" 0);
      writeJSON StatusOK (JUploaded 10);
      writeJSON StatusOK (JUploaded 5);
      writeJSON StatusOK
        (JMeta {| UploadID := "U"; CreatedAt := 0; Filename := "a.bin";
                  RelPath := "x/a.bin"; TotalSize := 1000; ChunkSize := 5;
                  UploadedSize := 0; Completed := false |}) ].
Proof. vm_compute. reflexivity. Qed.

(** C6, witness: a first chunk of 64 MiB reaches the threshold and is
    flushed. *)
Lemma C6_throttled_persistence_witness :
  reachable None exampleServer exampleWorld
  /\ chunkHeadersOk exampleServer (chunkRequest "U" "0" 67108864) "U" 0
  /\ lastSaved (snd (handleChunk exampleServer (chunkRequest "U" "0" 67108864)
                       (chunkOk 67108864) exampleWorld)) !! "U"
     = Some 67108864.
Proof.
  assert (Hh : chunkHeadersOk exampleServer (chunkRequest "U" "0" 67108864) "U" 0).
  { unfold chunkHeadersOk. repeat split; try reflexivity; try discriminate; lia. }
  split; [apply exampleWorld_reachable |]. split; [exact Hh |].
  pose proof (C6_throttled_persistence None exampleConfig exampleServer
                (chunkRequest "U" "0" 67108864) (chunkOk 67108864) exampleWorld
                "U" 0 exampleMeta (FData 104857600)
                exampleServer_new
                ltac:(vm_compute; split; discriminate)
                exampleWorld_reachable Hh exampleWorld_meta eq_refl
                ltac:(vm_compute; discriminate)
                eq_refl exampleWorld_part ltac:(vm_compute; reflexivity)) as H.
  cbv zeta in H. destruct H as [H _].
  destruct (H ltac:(right; vm_compute; discriminate) eq_refl) as (_ & _ & _ & Hls).
  exact Hls.
Defined.


Lemma exampleDisk_ok : readDirOk exampleDisk.
Proof.
  intros d es. unfold exampleDisk.
  repeat (destruct (String.eqb d _); [intros [= <-] |]); [| | | | discriminate].
  all: repeat constructor; cbn [deName]; try discriminate; reflexivity.
Qed.





(* ===================================================================== *)
(** * Further properties of the code *)
(* ===================================================================== *)

Set Warnings "-clear-no-such-hyp".

(** ** The files of a session *)

Lemma length_append (a b : string) :
  String.length (a +:+ b) = (String.length a + String.length b)%nat.
Proof.
  induction a as [| c a IH]; [reflexivity |].
  change (S (String.length (a +:+ b)) = S (String.length a + String.length b)).
  now rewrite IH.
Qed.

Lemma append_inj_r (a b x : string) : a +:+ x = b +:+ x -> a = b.
Proof.
  revert b. induction a as [| c a IH]; intros [| d b] E.
  - reflexivity.
  - apply (f_equal String.length) in E. rewrite !length_append in E. cbn in E. lia.
  - apply (f_equal String.length) in E. rewrite !length_append in E. cbn in E. lia.
  - change (String c (a +:+ x) = String d (b +:+ x)) in E.
    injection E as -> E. f_equal. now apply IH.
Qed.

Lemma lastByte_app (a b : string) : b <> "" -> lastByte (a +:+ b) = lastByte b.
Proof.
  intros Hb. induction a as [| c a IH]; [reflexivity |].
  change (String c a +:+ b) with (String c (a +:+ b)). cbn [lastByte].
  destruct (a +:+ b) eqn:E; [| exact IH].
  destruct a; [change (b = "") in E; congruence | discriminate].
Qed.

(** Appending to the last field of a path. *)
Lemma Split_app_nosep x e :
  nosep e ->
  exists init t, strings.Split x = (init ++ [t])%list
                 /\ strings.Split (x +:+ e) = (init ++ [t +:+ e])%list.
Proof.
  intros He. induction x as [| c x (init & t & E1 & E2)].
  - exists [], "". split; [reflexivity |]. now apply Split_single.
  - change (String c x +:+ e) with (String c (x +:+ e)). cbn [strings.Split].
    destruct (Ascii.eqb c strings.slash).
    + exists ("" :: init), t. rewrite E1, E2. split; reflexivity.
    + rewrite E1, E2. destruct init as [| h init].
      * exists [], (String c t). split; reflexivity.
      * exists (String c h :: init), t. split; reflexivity.
Qed.

Lemma nosep_app a b : nosep a -> nosep b -> nosep (a +:+ b).
Proof.
  unfold nosep. intros Ha Hb. induction a as [| c a IH]; [assumption |].
  change (String c a +:+ b) with (String c (a +:+ b)).
  cbn [strings.contains_slash] in *. apply orb_false_iff in Ha as [Hc Ha].
  rewrite Hc. now apply IH.
Qed.

(** A field that ends with an extension of three bytes or more is a real
    path element. *)
Lemma real_app_ext t e :
  nosep t -> nosep e -> (3 <= String.length e)%nat -> real (t +:+ e).
Proof.
  intros Ht He Hl.
  assert (L : (3 <= String.length (t +:+ e))%nat) by (rewrite length_append; lia).
  repeat split; try (intros E; rewrite E in L; cbn in L; lia).
  now apply nosep_app.
Qed.

Lemma Join_snoc_prefix xs : exists a, forall e, strings.Join (xs ++ [e]) = a +:+ e.
Proof.
  induction xs as [| x xs [a IH]].
  - now exists "".
  - exists (x +:+ String strings.slash a). intros e.
    change ((x :: xs) ++ [e])%list with (x :: (xs ++ [e]))%list.
    rewrite Join_cons by now destruct xs.
    rewrite IH, append_assoc. reflexivity.
Qed.

(** [Clean] leaves an extension in place: what comes before it does not
    depend on the extension. *)
Lemma Clean_ext x :
  exists R, forall e, nosep e -> (3 <= String.length e)%nat ->
    filepath.Clean (x +:+ e) = R +:+ e.
Proof.
  destruct (Join_snoc_prefix
              (filepath.cleanElems (strings.HasPrefix x "/")
                 (removelast (strings.Split x)))) as [a Ha].
  exists ((if strings.HasPrefix x "/" then "/" else "") +:+ a +:+ List.last (strings.Split x) "").
  intros e He Hl.
  destruct (Split_app_nosep x e He) as (init & t & E1 & E2).
  rewrite E1, removelast_last, List.last_last in *.
  assert (Ht : nosep t).
  { pose proof (Split_nosep x) as H. rewrite E1 in H.
    apply Forall_app in H as [_ H]. now apply Forall_cons in H as [H _]. }
  pose proof (real_app_ext t e Ht He Hl) as Hreal.
  assert (Hne : String.eqb (x +:+ e) "" = false).
  { apply String.eqb_neq. intros E. apply (f_equal String.length) in E.
    rewrite length_append in E. cbn in E. lia. }
  assert (Hr : strings.HasPrefix (x +:+ e) "/" = strings.HasPrefix x "/").
  { destruct x as [| c x]; [| reflexivity].
    destruct e as [| c e]; [reflexivity |]. unfold nosep in He.
    cbn [strings.contains_slash] in He. apply orb_false_iff in He as [Hc _].
    change ("" +:+ String c e) with (String c e). cbn [strings.HasPrefix].
    unfold strings.slash in Hc.
    destruct (Ascii.eqb_spec "/"%char c) as [<- | ?]; [discriminate | reflexivity]. }
  unfold filepath.Clean. rewrite Hne, Hr, E2.
  rewrite cleanElems_app_real by (constructor; [assumption | constructor]).
  rewrite Ha. rewrite !append_assoc.
  destruct (strings.HasPrefix x "/").
  - reflexivity.
  - destruct (filepath.cleanElems false init ++ [t +:+ e])%list eqn:E;
      [now destruct (filepath.cleanElems false init) | reflexivity].
Qed.

(** The two files of a session share all of their path but the extension. *)
Lemma session_paths s id :
  exists stem, metaPath s id = stem +:+ ".json" /\ partPath s id = stem +:+ ".part".
Proof.
  unfold metaPath, partPath. cbn [filepath.Join].
  destruct (String.eqb_spec (stateAbs s) "") as [E | E].
  - assert (H : forall e, (3 <= String.length e)%nat ->
                String.eqb (id +:+ e) "" = false).
    { intros e Hl. apply String.eqb_neq. intros E'.
      apply (f_equal String.length) in E'. rewrite length_append in E'. cbn in E'. lia. }
    rewrite !H by (cbn; lia). cbn [strings.Join].
    destruct (Clean_ext id) as [R HR]. exists R.
    split; apply HR; (reflexivity || (cbn; lia)).
  - cbn [strings.Join].
    destruct (Clean_ext (stateAbs s +:+ String strings.slash id)) as [R HR]. exists R.
    rewrite <- !(HR _) by (reflexivity || (cbn; lia)).
    rewrite !append_assoc. split; reflexivity.
Qed.

Lemma metaPath_last s id : lastByte (metaPath s id) = Some "n"%char.
Proof.
  destruct (session_paths s id) as (R & -> & _). now rewrite lastByte_app.
Qed.

Lemma partPath_last s id : lastByte (partPath s id) = Some "t"%char.
Proof.
  destruct (session_paths s id) as (R & _ & ->). now rewrite lastByte_app.
Qed.

Lemma tmp_last (p : string) : lastByte (p +:+ ".tmp") = Some "p"%char.
Proof. now rewrite lastByte_app. Qed.

Lemma partPath_ne_metaPath s id id' : partPath s id <> metaPath s id'.
Proof.
  intros E. apply (f_equal lastByte) in E.
  rewrite partPath_last, metaPath_last in E. discriminate.
Qed.

Lemma tmp_ne_metaPath s (p : string) id' : p +:+ ".tmp" <> metaPath s id'.
Proof.
  intros E. apply (f_equal lastByte) in E.
  rewrite tmp_last, metaPath_last in E. discriminate.
Qed.

Lemma tmp_ne_partPath s (p : string) id' : p +:+ ".tmp" <> partPath s id'.
Proof.
  intros E. apply (f_equal lastByte) in E.
  rewrite tmp_last, partPath_last in E. discriminate.
Qed.

(** X1.  Whatever the ids and the state directory, the metadata file of a
    session and its part file differ in their extension only, and no part
    file and no temporary file of [saveMeta] is the metadata file of any
    session, nor is a temporary file a part file. *)
Theorem session_files_distinct s id id' :
  (exists stem, metaPath s id = stem +:+ ".json" /\ partPath s id = stem +:+ ".part")
  /\ partPath s id <> metaPath s id'
  /\ metaPath s id +:+ ".tmp" <> metaPath s id'
  /\ metaPath s id +:+ ".tmp" <> partPath s id'.
Proof.
  split; [apply session_paths |].
  split; [apply partPath_ne_metaPath |].
  split; [apply tmp_ne_metaPath | apply tmp_ne_partPath].
Qed.

Lemma Join_state_nosep s name :
  filepath.IsAbs (stateAbs s) = true -> real name ->
  filepath.Join [stateAbs s; name]
  = String strings.slash (strings.Join (rootElems (stateAbs s) ++ [name])).
Proof.
  intros Habs Hn. apply Join_root_rel;
    [exact Habs | constructor; [assumption | constructor] |].
  right. split; [discriminate | reflexivity].
Qed.

(** X2.  For an id without a separator (as [newUploadID] makes them) and an
    absolute state directory, the metadata file and the part file lie
    directly in the state directory under the names [id.json] and
    [id.part], and different ids have different files. *)
Theorem session_files_in_state_dir s id :
  filepath.IsAbs (stateAbs s) = true -> nosep id ->
  filepath.elems (metaPath s id) = (rootElems (stateAbs s) ++ [id +:+ ".json"])%list
  /\ filepath.elems (partPath s id) = (rootElems (stateAbs s) ++ [id +:+ ".part"])%list
  /\ filepath.Base (metaPath s id) = id +:+ ".json"
  /\ filepath.Base (partPath s id) = id +:+ ".part"
  /\ isSubpath (metaPath s id) (stateAbs s) = true
  /\ isSubpath (partPath s id) (stateAbs s) = true
  /\ (forall id', nosep id' -> metaPath s id' = metaPath s id -> id' = id)
  /\ (forall id', nosep id' -> partPath s id' = partPath s id -> id' = id).
Proof.
  intros Habs Hid.
  assert (HR : Forall real (rootElems (stateAbs s))) by now apply rootElems_real.
  assert (Hreal : forall i e, nosep i -> nosep e -> (3 <= String.length e)%nat ->
            real (i +:+ e)) by (intros; now apply real_app_ext).
  assert (Hbase : forall i e, nosep i -> nosep e -> (3 <= String.length e)%nat ->
            filepath.Base (filepath.Join [stateAbs s; i +:+ e]) = i +:+ e).
  { intros i e Hi He Hl. rewrite Join_state_nosep by auto.
    now apply Base_rooted_snoc; auto. }
  assert (Hel : forall e, nosep e -> (3 <= String.length e)%nat ->
            filepath.elems (filepath.Join [stateAbs s; id +:+ e])
            = (rootElems (stateAbs s) ++ [id +:+ e])%list).
  { intros e He Hl. rewrite Join_state_nosep by auto.
    apply elems_rooted_real, Forall_app. split; [assumption |].
    constructor; [auto | constructor]. }
  assert (Hsub : forall e, nosep e -> (3 <= String.length e)%nat ->
            isSubpath (filepath.Join [stateAbs s; id +:+ e]) (stateAbs s) = true).
  { intros e He Hl. rewrite Join_state_nosep by auto.
    apply isSubpath_below; [exact Habs |]. constructor; [auto | constructor]. }
  unfold metaPath, partPath.
  split; [apply Hel; [reflexivity | cbn; lia] |].
  split; [apply Hel; [reflexivity | cbn; lia] |].
  split; [apply Hbase; [assumption | reflexivity | cbn; lia] |].
  split; [apply Hbase; [assumption | reflexivity | cbn; lia] |].
  split; [apply Hsub; [reflexivity | cbn; lia] |].
  split; [apply Hsub; [reflexivity | cbn; lia] |].
  split; intros id' Hid' E; apply (f_equal filepath.Base) in E;
    rewrite !Hbase in E by (assumption || reflexivity || (cbn; lia));
    now apply append_inj_r in E.
Qed.

Lemma session_files_in_state_dir_witness :
  filepath.Base (metaPath exampleServer "U") = "U.json"
  /\ isSubpath (partPath exampleServer "U") (stateAbs exampleServer) = true.
Proof.
  destruct (session_files_in_state_dir exampleServer "U" eq_refl eq_refl)
    as (_ & _ & H1 & _ & _ & H2 & _).
  split; [exact H1 | exact H2].
Defined.

(** ** The session store *)

Lemma loadMeta_same_fs s id w w' :
  fs w' = fs w -> loadMeta s id w' = loadMeta s id w.
Proof. unfold loadMeta. now intros ->. Qed.

Lemma loadMeta_insert_ne s id w (p : string) f evs :
  p <> metaPath s id ->
  loadMeta s id (setFs w (<[p := f]> (fs w)) evs) = loadMeta s id w.
Proof.
  intros Hp. unfold loadMeta. cbn [fs setFs]. now rewrite lookup_insert_ne.
Qed.

Lemma loadMeta_delete_ne s id w (p : string) evs :
  p <> metaPath s id ->
  loadMeta s id (setFs w (delete p (fs w)) evs) = loadMeta s id w.
Proof.
  intros Hp. unfold loadMeta. cbn [fs setFs]. now rewrite lookup_delete_ne.
Qed.

(** A [saveMeta] that fails leaves every record as it was. *)
Lemma saveMeta_failed s o m w w' :
  saveMeta s o m w = (false, w') ->
  (forall id, loadMeta s id w' = loadMeta s id w) /\ lastSaved w' = lastSaved w.
Proof.
  unfold saveMeta. destruct o; intros [= <-]; [split; reflexivity |].
  split; [| reflexivity]. intros id. apply loadMeta_insert_ne, tmp_ne_metaPath.
Qed.

(** X3.  [saveMeta] is atomic for readers and round-trips with [loadMeta]:
    it succeeds exactly when both the write of the temporary file and the
    rename do; after a success [loadMeta] of the record's id returns the
    record; after a failure every [loadMeta] returns what it returned
    before; and in every case the records stored under other metadata paths
    are untouched. *)
Theorem saveMeta_atomic s o m w :
  let ok := fst (saveMeta s o m w) in
  let w' := snd (saveMeta s o m w) in
  (ok = true <-> o = SaveDone)
  /\ (o = SaveDone -> loadMeta s (UploadID m) w' = inr m)
  /\ (o <> SaveDone -> forall id, loadMeta s id w' = loadMeta s id w)
  /\ (forall id, metaPath s id <> metaPath s (UploadID m) ->
      loadMeta s id w' = loadMeta s id w)
  /\ lastSaved w' = lastSaved w.
Proof.
  cbv zeta. split; [destruct o; cbn; split; congruence |].
  split.
  { intros ->. unfold loadMeta, saveMeta. cbn [snd fs setFs].
    now rewrite lookup_insert_eq. }
  split.
  { intros Ho id. destruct (saveMeta s o m w) as [ok w'] eqn:E.
    destruct ok; [destruct o; cbn in E; congruence |].
    now apply (saveMeta_failed _ _ _ _ _ E). }
  split; [| now destruct o].
  intros id Hid. destruct o; cbn [saveMeta snd].
  - unfold loadMeta. cbn [fs setFs].
    rewrite lookup_insert_ne by congruence.
    rewrite lookup_delete_ne; [reflexivity | apply tmp_ne_metaPath].
  - reflexivity.
  - apply loadMeta_insert_ne, tmp_ne_metaPath.
Qed.

(** ** Chunks *)

(** The count of a copy that ends without an error: what the limit and the
    body allow, whichever is less. *)
Lemma copyLoop_count io fuel offset :
  0 <= offset ->
  forall total limit avail t,
  0 <= total -> offset + total <= Int64.max_int ->
  copyLoop io fuel offset total limit avail = (t, None) ->
  t = total + Z.min (Z.max 0 limit) (Z.max 0 avail)
  /\ (avail < limit -> 0 < limit -> bodyEnd io = ReadEOF).
Proof.
  intros Ho. induction fuel as [| fuel IH]; intros total limit avail t Ht Hm;
    cbn [copyLoop]; [discriminate |].
  assert (Eot : Int64.add offset total = offset + total).
  { apply Int64_add_no_overflow. unfold Int64.in_range, Int64.min_int. lia. }
  unfold limitedRead. destruct (Z.leb_spec limit 0) as [Hl | Hl].
  { change (Z.ltb 0 0) with false. cbv beta iota. intros [= <-]. split; lia. }
  assert (Hb : 0 < bufSize) by (unfold bufSize; lia).
  set (n := Z.min (Z.min bufSize limit) avail).
  destruct (Z.ltb_spec 0 n) as [Hn | Hn].
  - rewrite (proj2 (Z.ltb_lt 0 n) Hn), Eot.
    destruct (WriteAt io n (offset + total)) as [wn werr] eqn:Ew.
    destruct werr; [discriminate |].
    destruct (Z.eqb_spec wn n) as [-> | _]; cbn [negb]; [| discriminate].
    apply WriteAt_ok in Ew as [_ Ew].
    assert (Etn : Int64.add total n = total + n).
    { apply Int64_add_no_overflow. unfold Int64.in_range, Int64.min_int. lia. }
    rewrite Etn. intros H. apply IH in H as [H1 H2]; [| lia | lia].
    split; [subst n; lia |]. intros Ha _.
    apply H2; subst n; lia.
  - change (Z.ltb 0 0) with false. cbv beta iota.
    destruct (bodyEnd io); [| discriminate].
    intros [= <-]. split; [subst n; lia | reflexivity].
Qed.

(** X4.  [copyToWriterAt] on the limited body never moves more than the
    announced length: when it returns no error, its count is the lesser of
    the Content-Length and the length of the body, the bytes lie inside the
    int64 range of file offsets, and a count below the Content-Length means
    the body ended early with [io.EOF].  When the body holds at least the
    announced bytes and the device writes all it is given, the copy returns
    the Content-Length and no error. *)
Theorem copyToWriterAt_count io offset len :
  0 <= offset <= Int64.max_int -> 0 <= len ->
  (forall t, copyToWriterAt io offset len = (t, None) ->
     t = Z.min len (Z.max 0 (bodyBytes io))
     /\ offset + t <= Int64.max_int
     /\ (t < len -> bodyEnd io = ReadEOF))
  /\ ((forall off n, diskWriteAt io off n = (n, false)) ->
      len <= bodyBytes io -> offset + len <= Int64.max_int ->
      copyToWriterAt io offset len = (len, None)).
Proof.
  intros Ho Hl. split.
  - intros t H. unfold copyToWriterAt in H.
    pose proof (copyLoop_end _ _ _ (proj1 Ho) _ _ _ _ (Z.le_refl 0) ltac:(lia) H) as [_ He].
    apply copyLoop_count in H as [H1 H2]; [| lia | lia | lia].
    split; [lia |]. split; [assumption |].
    intros Hlt. apply H2; lia.
  - intros Hd Hb Hm. apply copyToWriterAt_all; auto; lia.
Qed.

Lemma copyToWriterAt_count_witness :
  copyToWriterAt (chunkOk 100) 0 5 = (5, None).
Proof.
  apply (copyToWriterAt_count (chunkOk 100) 0 5);
    [unfold Int64.max_int; lia | lia | reflexivity | cbn; lia
    | unfold Int64.max_int; lia].
Defined.

Lemma saveMeta_failed_fs s o m w w' :
  saveMeta s o m w = (false, w') ->
  (forall id, fs w' !! metaPath s id = fs w !! metaPath s id)
  /\ lastSaved w' = lastSaved w.
Proof.
  unfold saveMeta. destruct o; intros [= <-]; [split; reflexivity |].
  split; [| reflexivity]. intros id. cbn [fs setFs].
  apply lookup_insert_ne, tmp_ne_metaPath.
Qed.

Lemma default_insert_default (l : gmap string Z) (id id' : string) :
  default 0 (<[id := default 0 (l !! id)]> l !! id') = default 0 (l !! id').
Proof. rewrite lookup_insert. case_decide; subst; reflexivity. Qed.

(** X5.  A chunk request that is not answered 200 changes no stored
    metadata and no remembered flushed size: whether it was rejected, the
    part file could not be opened, the write failed or came up short, or the
    metadata could not be saved, every session loads as before. *)
Theorem chunk_failure_keeps_metadata s r io w :
  status (fst (handleChunk s r io w)) <> StatusOK ->
  (forall id, loadMeta s id (snd (handleChunk s r io w)) = loadMeta s id w)
  /\ (forall id, default 0 (lastSaved (snd (handleChunk s r io w)) !! id)
                 = default 0 (lastSaved w !! id)).
Proof.
  intros Hst.
  cut ((forall id, fs (snd (handleChunk s r io w)) !! metaPath s id
                   = fs w !! metaPath s id)
       /\ (forall id, default 0 (lastSaved (snd (handleChunk s r io w)) !! id)
                      = default 0 (lastSaved w !! id))).
  { intros [H1 H2]. split; [| exact H2]. intros id. unfold loadMeta. now rewrite H1. }
  revert Hst. unfold handleChunk. repeat case_match; cbn [fst snd]; intros Hst;
    try (exfalso; apply Hst; reflexivity);
    try (split; reflexivity).
  all: repeat match goal with
       | H : negb ?b = true |- _ => apply negb_true_iff in H; subst b
       | H : saveMeta _ _ _ _ = (false, _) |- _ =>
           let H1 := fresh "Hfs" in let H2 := fresh "Hls" in
           apply saveMeta_failed_fs in H as [H1 H2]
       end.
  all: split; intros id'.
  all: try rewrite Hfs; try rewrite Hls.
  all: cbn [lastSaved fs setLastSaved setFs lock setMu].
  all: try (apply lookup_insert_ne, partPath_ne_metaPath).
  all: try reflexivity.
  all: apply default_insert_default.
Qed.

Lemma chunk_failure_keeps_metadata_witness :
  loadMeta exampleServer "U"
    (snd (handleChunk exampleServer (chunkRequest "U" "0" 16) (chunkOk 7) exampleWorld))
  = inr exampleMeta.
Proof.
  rewrite (proj1 (chunk_failure_keeps_metadata exampleServer (chunkRequest "U" "0" 16)
                    (chunkOk 7) exampleWorld ltac:(vm_compute; discriminate))).
  vm_compute. reflexivity.
Defined.

(** ** Init *)

Lemma initSizesOk_dec s req :
  (Z.leb (initReq.TotalSize req) 0 = false
   /\ (Z.ltb 0 (MaxFileBytes (limits (cfg s)))
       && Z.ltb (MaxFileBytes (limits (cfg s))) (initReq.TotalSize req)) = false
   /\ (Z.leb (initReq.ChunkSize req) 0
       || Z.ltb (MaxChunkBytes (limits (cfg s))) (initReq.ChunkSize req)) = false)
  <-> initSizesOk s req.
Proof.
  unfold initSizesOk. split.
  - intros (H1 & H2 & H3). apply Z.leb_gt in H1.
    apply orb_false_iff in H3 as [H3 H4]. apply Z.leb_gt in H3. apply Z.ltb_ge in H4.
    repeat split; try assumption.
    intros Hm. apply andb_false_iff in H2 as [H2 | H2];
      [apply Z.ltb_ge in H2; lia | now apply Z.ltb_ge in H2].
  - intros (H1 & H2 & H3 & H4). repeat split.
    + now apply Z.leb_gt.
    + destruct (Z.ltb_spec 0 (MaxFileBytes (limits (cfg s)))); [| reflexivity].
      cbn [andb]. apply Z.ltb_ge. auto.
    + apply orb_false_iff. split; [now apply Z.leb_gt | now apply Z.ltb_ge].
Qed.

(** X6.  Init answers 200 exactly when the method is POST, the body
    decodes, the sizes pass their checks (a limit [MaxFileBytes] of zero or
    less is no limit), the substituted path is accepted by
    [sanitizeRelPath], and the save, the directory creation, the creation of
    the part file and its truncation all succeed.  A request refused before
    the save changes nothing. *)
Theorem init_accepts s r io w :
  let resp := fst (handleInit s r io w) in
  let w' := snd (handleInit s r io w) in
  let valid :=
    Method r = "POST"
    /\ exists req, readJSON r = Some req /\ initSizesOk s req
         /\ exists rel, sanitizeRelPath (effectivePath req) = inr rel in
  (status resp = StatusOK
   <-> valid /\ initSave io = SaveDone /\ initMkdirOk io = true
       /\ initCreateOk io = true /\ initTruncateOk io = true)
  /\ (~ valid -> w' = w /\ status resp <> StatusInternalServerError).
Proof.
  cbv zeta. unfold handleInit, effectivePath.
  destruct (String.eqb_spec (Method r) "POST") as [Hm | Hm]; cbn [negb].
  2:{ split; [split; [discriminate | intros [[? _] _]; congruence] |].
      intros _. split; [reflexivity | discriminate]. }
  destruct (readJSON r) as [req |] eqn:Hj.
  2:{ split; [split; [discriminate | intros [(_ & req & ? & _) _]; congruence] |].
      intros _. split; [reflexivity | discriminate]. }
  cbv zeta.
  destruct (Z.leb (initReq.TotalSize req) 0) eqn:H1.
  { split; [split; [discriminate |] |].
    - intros [(_ & req' & [= <-] & Hs & _) _]. apply initSizesOk_dec in Hs as (? & _).
      congruence.
    - intros _. split; [reflexivity | discriminate]. }
  destruct (_ && _) eqn:H2.
  { split; [split; [discriminate |] |].
    - intros [(_ & req' & [= <-] & Hs & _) _]. apply initSizesOk_dec in Hs as (_ & ? & _).
      congruence.
    - intros _. split; [reflexivity | discriminate]. }
  destruct (_ || _) eqn:H3.
  { split; [split; [discriminate |] |].
    - intros [(_ & req' & [= <-] & Hs & _) _]. apply initSizesOk_dec in Hs as (_ & _ & ?).
      congruence.
    - intros _. split; [reflexivity | discriminate]. }
  assert (Hs : initSizesOk s req) by (apply initSizesOk_dec; auto).
  destruct (sanitizeRelPath _) as [e | rel] eqn:Hrel.
  { split; [split; [discriminate |] |].
    - intros [(_ & req' & [= <-] & _ & rel & Hr) _]. unfold effectivePath in Hr.
      cbv zeta in Hr. congruence.
    - intros _. split; [reflexivity | discriminate]. }
  assert (Hv : Method r = "POST"
               /\ exists req0, Some req = Some req0 /\ initSizesOk s req0
                    /\ exists rel0, sanitizeRelPath (effectivePath req0) = inr rel0).
  { split; [assumption |]. exists req. split; [reflexivity |]. split; [assumption |].
    exists rel. exact Hrel. }
  split; [| intros Hn; contradiction].
  unfold saveMeta, ensureParentDir.
  destruct (initSave io), (initMkdirOk io), (initCreateOk io), (initTruncateOk io);
    cbn [negb fst snd status httpError writeJSON];
    (split; [intros E;
             first [discriminate E | split; [exact Hv | repeat split; reflexivity]]
            | intros (_ & ? & ? & ? & ?); try discriminate; reflexivity]).
Qed.

(** X7.  Init does not roll back: once the metadata is saved the session
    exists, whatever becomes of the part file.  Status with the id then
    returns the initial record, also when init itself answered 500 because
    the directory, the part file or its truncation failed. *)
Theorem init_then_status s r io w req rel r' :
  Method r = "POST" -> readJSON r = Some req -> initSizesOk s req ->
  sanitizeRelPath (effectivePath req) = inr rel ->
  initSave io = SaveDone ->
  Method r' = "GET" -> idHeadersOk r' (newUploadID io) ->
  let resp := fst (handleInit s r io w) in
  let w' := snd (handleInit s r io w) in
  loadMeta s (newUploadID io) w' = inr (initialMeta req io rel)
  /\ handleStatus s r' w' = writeJSON StatusOK (JMeta (initialMeta req io rel))
  /\ (status resp = StatusOK \/ status resp = StatusInternalServerError).
Proof.
  intros Hm Hj Hs Hrel Hsave Hm' Hid resp w'. subst resp w'.
  assert (Hload : loadMeta s (newUploadID io) (snd (handleInit s r io w))
                  = inr (initialMeta req io rel)
                  /\ (status (fst (handleInit s r io w)) = StatusOK
                      \/ status (fst (handleInit s r io w)) = StatusInternalServerError)).
  { init_sizes Hm Hj Hs.
    unfold effectivePath in Hrel. cbv zeta in Hrel. rewrite Hrel.
    unfold saveMeta, ensureParentDir. rewrite Hsave.
    fold (effectivePath req). fold (effectiveFilename req).
    fold (initialMeta req io rel). cbn [UploadID initialMeta negb].
    destruct (initMkdirOk io), (initCreateOk io), (initTruncateOk io);
      cbn [negb fst snd status httpError writeJSON]; (split; [| auto]);
      unfold loadMeta; cbn [fs setFs];
      rewrite ?(lookup_insert_ne _ (partPath s (newUploadID io)))
        by apply partPath_ne_metaPath;
      now rewrite lookup_insert_eq. }
  destruct Hload as [Hload Hst]. split; [exact Hload |]. split; [| exact Hst].
  now apply status_found with (newUploadID io).
Qed.

Lemma init_then_status_witness :
  handleStatus exampleServer (idRequest "GET" "U")
    (snd (handleInit exampleServer (initRequest "a.bin" "x/a.bin" 10 5)
            {| newUploadID := "U"; timeNow := 0; initSave := SaveDone;
               initMkdirOk := false; initCreateOk := true; initTruncateOk := true |}
            emptyWorld))
  = writeJSON StatusOK
      (JMeta {| UploadID := "U"; CreatedAt := 0; Filename := "a.bin";
                RelPath := "x/a.bin"; TotalSize := 10; ChunkSize := 5;
                UploadedSize := 0; Completed := false |}).
Proof.
  pose proof (init_then_status exampleServer (initRequest "a.bin" "x/a.bin" 10 5)
                {| newUploadID := "U"; timeNow := 0; initSave := SaveDone;
                   initMkdirOk := false; initCreateOk := true; initTruncateOk := true |}
                emptyWorld
                {| initReq.Filename := "a.bin"; initReq.Path := "x/a.bin";
                   initReq.TotalSize := 10; initReq.ChunkSize := 5 |}
                "x/a.bin" (idRequest "GET" "U")
                eq_refl eq_refl
                ltac:(vm_compute; repeat split; try discriminate; reflexivity)
                eq_refl eq_refl eq_refl
                ltac:(split; [reflexivity | discriminate])) as H.
  cbv zeta in H. destruct H as (_ & H & _). exact H.
Defined.

(** ** Complete *)

(** X8.  What a successful complete does to the files: the part file is
    renamed onto the final path and the record is saved with
    [completed = true].  Provided the final path is not the metadata file of
    the record nor its temporary file, the final path then holds the bytes
    of the part file; provided it is not the part path itself, the part file
    is gone; every other file and the flushed sizes are as before. *)
Theorem complete_moves_part wd s r io w id meta finalAbs f :
  Method r = "POST" -> idHeadersOk r id -> loadMeta s id w = inr meta ->
  Completed meta = false -> TotalSize meta <= UploadedSize meta ->
  finalAbsPath wd s (RelPath meta) = inr finalAbs ->
  completeMkdirOk io = true -> completeRenameOk io = true ->
  fs w !! partPath s id = Some f -> completeSave io = SaveDone ->
  let w' := snd (handleComplete wd s r io w) in
  let mp := metaPath s (UploadID meta) in
  fst (handleComplete wd s r io w) = writeJSON StatusOK (JCompleted finalAbs)
  /\ loadMeta s (UploadID meta) w' = inr (setCompleted meta true)
  /\ (finalAbs <> mp -> finalAbs <> mp +:+ ".tmp" -> fs w' !! finalAbs = Some f)
  /\ (partPath s id <> finalAbs -> fs w' !! partPath s id = None)
  /\ (forall p, p <> finalAbs -> p <> partPath s id -> p <> mp -> p <> mp +:+ ".tmp" ->
      fs w' !! p = fs w !! p)
  /\ lastSaved w' = lastSaved w.
Proof.
  intros Hm H Hload Hc Hge Hp Hmk Hrn Hf Hs w' mp. subst w'.
  rewrite (complete_finalize _ _ _ _ _ _ _ _ _ Hm H Hload Hc Hge Hp Hmk Hrn Hf Hs).
  cbn [fst snd]. unfold completed, saveMeta, loadMeta.
  cbn [snd fs setFs lastSaved lock setMu UploadID setCompleted]. fold mp.
  split; [reflexivity |]. split; [now rewrite lookup_insert_eq |].
  split; [| split; [| split; [| reflexivity]]].
  - intros H1 H2. rewrite lookup_insert_ne by congruence.
    rewrite lookup_delete_ne by congruence. apply lookup_insert_eq.
  - intros H1. rewrite lookup_insert_ne by (subst mp; apply not_eq_sym, partPath_ne_metaPath).
    rewrite lookup_delete_ne by (subst mp; apply tmp_ne_partPath).
    rewrite lookup_insert_ne by congruence. apply lookup_delete_eq.
  - intros p H1 H2 H3 H4. rewrite lookup_insert_ne by congruence.
    rewrite lookup_delete_ne by congruence. rewrite lookup_insert_ne by congruence.
    apply lookup_delete_ne. congruence.
Qed.

Lemma complete_moves_part_witness :
  fs (snd (handleComplete None exampleServer (idRequest "POST" "U") completeOk
             (snd (handleChunk exampleServer (chunkRequest "U" "0" 104857600)
                     (chunkOk 104857600)
                     (snd (handleInit exampleServer
                             (initRequest "a.bin" "x/a.bin" 104857600 104857600)
                             (initOk "U") emptyWorld))))))
  !! "/srv/uploads/x/a.bin" = Some (FData 104857600).
Proof.
  refine (proj1 (proj2 (proj2
            (complete_moves_part None exampleServer (idRequest "POST" "U") completeOk _
               "U" {| UploadID := "U"; CreatedAt := 0; Filename := "a.bin";
                      RelPath := "x/a.bin"; TotalSize := 104857600;
                      ChunkSize := 104857600; UploadedSize := 104857600;
                      Completed := false |}
               "/srv/uploads/x/a.bin" (FData 104857600)
               eq_refl _ _ eq_refl _ _ eq_refl eq_refl _ eq_refl))) _ _).
  - split; [reflexivity | discriminate].
  - vm_compute. reflexivity.
  - cbn. lia.
  - vm_compute. reflexivity.
  - vm_compute. reflexivity.
  - vm_compute. discriminate.
  - vm_compute. discriminate.
Defined.

(** X9.  A complete that is refused, or that fails before the rename, is
    safe to retry: whenever the answer is neither 200 nor 500 "save failed"
    the files are exactly as before.  A complete on a session that is
    already completed changes no file either, and complete never changes
    the flushed sizes. *)
Theorem complete_failure_keeps_files wd s r io w :
  let resp := fst (handleComplete wd s r io w) in
  let w' := snd (handleComplete wd s r io w) in
  (status resp <> StatusOK -> body resp <> Text "save failed" -> fs w' = fs w)
  /\ (forall meta,
        loadMeta s (strings.TrimSpace (QueryGet r "upload_id")) w = inr meta ->
        Completed meta = true -> fs w' = fs w)
  /\ lastSaved w' = lastSaved w.
Proof.
  cbv zeta. split; [| split; [| apply handleComplete_lastSaved]].
  - unfold handleComplete.
    destruct (negb _); [reflexivity |]. cbv zeta.
    destruct (String.eqb _ ""); [reflexivity |].
    destruct (loadMeta s _ _) as [[|] | meta]; [reflexivity | reflexivity |].
    destruct (Completed meta); [reflexivity |].
    destruct (Z.ltb _ _); [reflexivity |].
    destruct (finalAbsPath _ _ _); [reflexivity |].
    unfold ensureParentDir. destruct (completeMkdirOk io); cbn [negb]; [| reflexivity].
    cbn [fs setFs lock setMu].
    destruct (if completeRenameOk io then _ else None); [| reflexivity].
    unfold saveMeta.
    destruct (completeSave io); cbn [negb fst snd body status httpError writeJSON].
    + intros Hst. now contradiction Hst.
    + intros _ Hb. now contradiction Hb.
    + intros _ Hb. now contradiction Hb.
  - intros meta Hload Hc. unfold handleComplete.
    destruct (negb _); [reflexivity |]. cbv zeta.
    destruct (String.eqb _ ""); [reflexivity |].
    change (loadMeta s ?i (lock ?i w)) with (loadMeta s i w).
    now rewrite Hload, Hc.
Qed.

(** X10.  A complete whose rename succeeds and whose final save fails
    leaves the session wedged: the part file has been moved, the record
    still says [completed = false], and every later complete on the session
    is answered 500, since there is no part file left to rename. *)
Theorem complete_save_failure_wedges wd s r io w id meta finalAbs f :
  Method r = "POST" -> idHeadersOk r id -> loadMeta s id w = inr meta ->
  Completed meta = false -> TotalSize meta <= UploadedSize meta ->
  finalAbsPath wd s (RelPath meta) = inr finalAbs ->
  completeMkdirOk io = true -> completeRenameOk io = true ->
  fs w !! partPath s id = Some f -> completeSave io <> SaveDone ->
  finalAbs <> partPath s id -> finalAbs <> metaPath s id ->
  let w' := snd (handleComplete wd s r io w) in
  fst (handleComplete wd s r io w) = httpError "save failed" StatusInternalServerError
  /\ fs w' !! partPath s id = None
  /\ loadMeta s id w' = inr meta
  /\ forall r' io', Method r' = "POST" -> idHeadersOk r' id ->
       status (fst (handleComplete wd s r' io' w')) = StatusInternalServerError.
Proof.
  intros Hm H Hload Hc Hge Hp Hmk Hrn Hf Hs Hfp Hfm w'.
  assert (E : handleComplete wd s r io w
              = (httpError "save failed" StatusInternalServerError,
                 snd (saveMeta s (completeSave io) (setCompleted meta true)
                        (setFs (setFs (lock id w) (fs w) [EvEnsureParentDir finalAbs])
                               (<[finalAbs := f]> (delete (partPath s id) (fs w)))
                               [EvRename (partPath s id) finalAbs])))).
  { unfold handleComplete. id_headers Hm H.
    rewrite Hload, Hc, Hp, (proj2 (Z.ltb_ge _ _) Hge).
    unfold ensureParentDir. rewrite Hmk, Hrn.
    cbn [negb fs setFs lock setMu]. rewrite Hf.
    unfold saveMeta. destruct (completeSave io); [congruence | reflexivity | reflexivity]. }
  subst w'. rewrite E. cbn [fst snd]. clear E.
  set (w2 := snd (saveMeta _ _ _ _)).
  assert (Hpart : fs w2 !! partPath s id = None).
  { subst w2. unfold saveMeta. destruct (completeSave io); [congruence | |];
      cbn [snd fs setFs].
    - rewrite lookup_insert_ne by congruence. apply lookup_delete_eq.
    - rewrite lookup_insert_ne by apply tmp_ne_partPath.
      rewrite lookup_insert_ne by congruence. apply lookup_delete_eq. }
  assert (Hmeta : loadMeta s id w2 = inr meta).
  { rewrite <- Hload. subst w2. unfold loadMeta, saveMeta.
    destruct (completeSave io); [congruence | |]; cbn [snd fs setFs].
    - rewrite lookup_insert_ne by congruence.
      now rewrite lookup_delete_ne by apply partPath_ne_metaPath.
    - rewrite lookup_insert_ne by apply tmp_ne_metaPath.
      rewrite lookup_insert_ne by congruence.
      now rewrite lookup_delete_ne by apply partPath_ne_metaPath. }
  split; [reflexivity |]. split; [exact Hpart |]. split; [exact Hmeta |].
  intros r' io' Hm' H'. unfold handleComplete. id_headers Hm' H'.
  rewrite Hmeta, Hc, Hp, (proj2 (Z.ltb_ge _ _) Hge).
  unfold ensureParentDir. destruct (completeMkdirOk io'); cbn [negb]; [| reflexivity].
  cbn [fs setFs lock setMu]. rewrite Hpart.
  now destruct (completeRenameOk io').
Qed.

Lemma complete_save_failure_wedges_witness :
  status (fst (handleComplete None exampleServer (idRequest "POST" "U") completeOk
                 (snd (handleComplete None exampleServer (idRequest "POST" "U")
                         {| completeMkdirOk := true; completeRenameOk := true;
                            completeSave := SaveWriteFailed |}
                         (snd (handleChunk exampleServer (chunkRequest "U" "0" 104857600)
                                 (chunkOk 104857600)
                                 (snd (handleInit exampleServer
                                         (initRequest "a.bin" "x/a.bin" 104857600 104857600)
                                         (initOk "U") emptyWorld))))))))
  = StatusInternalServerError.
Proof.
  refine (proj2 (proj2 (proj2
            (complete_save_failure_wedges None exampleServer (idRequest "POST" "U")
               {| completeMkdirOk := true; completeRenameOk := true;
                  completeSave := SaveWriteFailed |} _
               "U" {| UploadID := "U"; CreatedAt := 0; Filename := "a.bin";
                      RelPath := "x/a.bin"; TotalSize := 104857600;
                      ChunkSize := 104857600; UploadedSize := 104857600;
                      Completed := false |}
               "/srv/uploads/x/a.bin" (FData 104857600)
               eq_refl _ _ eq_refl _ _ eq_refl eq_refl _ _ _ _)))
            (idRequest "POST" "U") completeOk eq_refl _).
  - split; [reflexivity | discriminate].
  - vm_compute. reflexivity.
  - cbn. lia.
  - vm_compute. reflexivity.
  - vm_compute. reflexivity.
  - discriminate.
  - vm_compute. discriminate.
  - vm_compute. discriminate.
  - split; [reflexivity | discriminate].
Defined.

(** ** Cancel *)

(** X11.  Cancel is best effort: on a session that is not completed it
    answers 200 and forgets the flushed size and the lock of the id whether
    or not the two removals succeed.  The metadata file is gone exactly when
    its removal succeeded: after a failed removal the session still loads
    although it was reported cancelled.  The part file likewise. *)
Theorem cancel_best_effort s r io w id meta :
  Method r = "POST" \/ Method r = "DELETE" -> idHeadersOk r id ->
  loadMeta s id w = inr meta -> Completed meta = false ->
  let w' := snd (handleCancel s r io w) in
  fst (handleCancel s r io w) = writeJSON StatusOK JCancelled
  /\ lastSaved w' !! id = None
  /\ (id ∉ muByUpload w')
  /\ (removeMetaOk io = false -> loadMeta s id w' = inr meta)
  /\ (removeMetaOk io = true -> loadMeta s id w' = inl ErrNotExist)
  /\ (removePartOk io = false -> fs w' !! partPath s id = fs w !! partPath s id)
  /\ (removePartOk io = true -> fs w' !! partPath s id = None).
Proof.
  intros Hm H Hload Hc w'. subst w'.
  assert (E : handleCancel s r io w
              = (writeJSON StatusOK JCancelled,
                 let w1 := osRemove (removePartOk io) (partPath s id) (lock id w) in
                 let w2 := osRemove (removeMetaOk io) (metaPath s id) w1 in
                 let w3 := setLastSaved w2 (delete id (lastSaved w2)) in
                 setMu w3 (muByUpload w3 ∖ {[id]}))).
  { destruct Hm as [Hm | Hm]; unfold handleCancel; id_headers Hm H;
      now rewrite Hload, Hc. }
  rewrite E. cbv zeta. cbn [fst snd]. clear E.
  split; [reflexivity |].
  split; [cbn [lastSaved setMu setLastSaved]; apply lookup_delete_eq |].
  split; [cbn [muByUpload setMu]; set_solver |].
  rewrite <- Hload. unfold loadMeta, osRemove.
  destruct (removePartOk io), (removeMetaOk io);
    cbn [fs setFs setMu setLastSaved lock];
    repeat split; intros [=];
    rewrite ?lookup_delete_eq;
    rewrite ?(lookup_delete_ne _ (partPath s id) (metaPath s id))
      by apply partPath_ne_metaPath;
    rewrite ?(lookup_delete_ne _ (metaPath s id) (partPath s id))
      by apply not_eq_sym, partPath_ne_metaPath;
    rewrite ?lookup_delete_eq;
    reflexivity.
Qed.

Lemma cancel_best_effort_witness :
  fst (handleCancel exampleServer (idRequest "DELETE" "U")
         {| removePartOk := true; removeMetaOk := false |} exampleWorld)
  = writeJSON StatusOK JCancelled
  /\ loadMeta exampleServer "U"
       (snd (handleCancel exampleServer (idRequest "DELETE" "U")
               {| removePartOk := true; removeMetaOk := false |} exampleWorld))
     = inr exampleMeta.
Proof.
  destruct (cancel_best_effort exampleServer (idRequest "DELETE" "U")
              {| removePartOk := true; removeMetaOk := false |} exampleWorld "U"
              exampleMeta (or_intror eq_refl)
              ltac:(split; [reflexivity | discriminate])
              exampleWorld_meta eq_refl) as (H1 & _ & _ & H2 & _).
  split; [exact H1 | exact (H2 eq_refl)].
Defined.

(** ** The lock registry *)

Lemma saveMeta_mu s o m w : muByUpload (snd (saveMeta s o m w)) = muByUpload w.
Proof. unfold saveMeta. now destruct o. Qed.

Lemma handleChunk_mu s r io w :
  muByUpload (snd (handleChunk s r io w)) = muByUpload w
  \/ muByUpload (snd (handleChunk s r io w))
     = {[strings.TrimSpace (QueryGet r "upload_id")]} ∪ muByUpload w.
Proof.
  unfold handleChunk. repeat case_match; cbn [snd]; auto; right;
    repeat match goal with
    | H : saveMeta ?s ?o ?m ?w1 = (_, ?w2) |- _ =>
        let E := fresh in
        pose proof (saveMeta_mu s o m w1) as E; rewrite H in E; cbn [snd] in E;
        clear H
    end;
    cbn [muByUpload setLastSaved setFs lock setMu] in *;
    congruence.
Qed.

Lemma handleComplete_mu wd s r io w :
  muByUpload (snd (handleComplete wd s r io w)) = muByUpload w
  \/ muByUpload (snd (handleComplete wd s r io w))
     = {[strings.TrimSpace (QueryGet r "upload_id")]} ∪ muByUpload w.
Proof.
  unfold handleComplete, ensureParentDir. repeat case_match; cbn [snd]; auto; right;
    repeat match goal with
    | H : saveMeta ?s ?o ?m ?w1 = (_, ?w2) |- _ =>
        let E := fresh in
        pose proof (saveMeta_mu s o m w1) as E; rewrite H in E; cbn [snd] in E;
        clear H
    | H : (_, _) = (_, _) |- _ => injection H as <- <-
    end;
    cbn [muByUpload setLastSaved setFs lock setMu] in *;
    congruence.
Qed.

(** X12.  The lock registry only grows, except by a successful cancel.
    Init and status leave it alone.  A chunk request with well-formed
    headers, and a complete or cancel request that names an id, register the
    id whatever the answer, also when no such session exists; only a cancel
    that is answered 200 takes its id out again. *)
Theorem lock_registry wd s r w :
  (forall io, muByUpload (snd (handleInit s r io w)) = muByUpload w)
  /\ (forall io, muByUpload w ⊆ muByUpload (snd (handleChunk s r io w)))
  /\ (forall io, muByUpload w ⊆ muByUpload (snd (handleComplete wd s r io w)))
  /\ (forall io id offset, chunkHeadersOk s r id offset ->
        id ∈ muByUpload (snd (handleChunk s r io w)))
  /\ (forall io id, Method r = "POST" -> idHeadersOk r id ->
        id ∈ muByUpload (snd (handleComplete wd s r io w)))
  /\ (forall io id, Method r = "POST" \/ Method r = "DELETE" -> idHeadersOk r id ->
        if Z.eqb (status (fst (handleCancel s r io w))) StatusOK
        then muByUpload (snd (handleCancel s r io w)) = muByUpload w ∖ {[id]}
        else muByUpload (snd (handleCancel s r io w)) = {[id]} ∪ muByUpload w).
Proof.
  split; [| split; [| split; [| split; [| split]]]].
  - intros io. unfold handleInit, ensureParentDir, saveMeta.
    repeat case_match; cbn [snd muByUpload setFs]; try reflexivity;
      repeat match goal with
      | H : (_, _) = (_, _) |- _ => injection H as <- <-
      end; reflexivity.
  - intros io. destruct (handleChunk_mu s r io w) as [-> | ->]; set_solver.
  - intros io. destruct (handleComplete_mu wd s r io w) as [-> | ->]; set_solver.
  - intros io id offset H.
    assert (E : muByUpload (snd (handleChunk s r io w)) = {[id]} ∪ muByUpload w);
      [| rewrite E; set_solver].
    chunk_headers H.
    repeat case_match; cbn [snd]; try reflexivity;
      repeat match goal with
      | H : saveMeta ?s ?o ?m ?w1 = (_, ?w2) |- _ =>
          let E := fresh in
          pose proof (saveMeta_mu s o m w1) as E; rewrite H in E; cbn [snd] in E;
          clear H
      end;
      cbn [muByUpload setLastSaved setFs lock setMu] in *;
      congruence.
  - intros io id Hm H.
    assert (E : muByUpload (snd (handleComplete wd s r io w)) = {[id]} ∪ muByUpload w);
      [| rewrite E; set_solver].
    unfold handleComplete, ensureParentDir. id_headers Hm H.
    repeat case_match; cbn [snd]; try reflexivity;
      repeat match goal with
      | H : saveMeta ?s ?o ?m ?w1 = (_, ?w2) |- _ =>
          let E := fresh in
          pose proof (saveMeta_mu s o m w1) as E; rewrite H in E; cbn [snd] in E;
          clear H
      | H : (_, _) = (_, _) |- _ => injection H as <- <-
      end;
      cbn [muByUpload setLastSaved setFs lock setMu] in *;
      congruence.
  - intros io id Hm H. unfold handleCancel, osRemove.
    destruct Hm as [Hm | Hm]; id_headers Hm H;
      repeat case_match; cbn [fst snd status httpError writeJSON Z.eqb];
      try reflexivity;
      cbn [muByUpload setLastSaved setFs lock setMu]; set_solver.
Qed.

(** ** A whole upload *)






(** ** The directory tree: its size *)

Section TreeBounds.

Variable wd : option string.
Variable s : Server.
Variable readDir : string -> option (list DirEntry).
Variables maxDepth maxEntries : Z.

Hypothesis maxDepthRange : maxDepth <= Int64.max_int.
Hypothesis maxEntriesRange : maxEntries <= Int64.max_int.

Abbreviation walk := (build wd s readDir maxDepth maxEntries).
Abbreviation walkLoop := (buildLoop wd s maxEntries).

Lemma height_children name rel children k :
  Forall (fun c => (S (height c) <= k)%nat) children ->
  (height (mkDirNode name rel children) <= k)%nat.
Proof.
  cbn [height]. induction 1 as [| c cs Hc _ IH]; cbn [fold_right]; lia.
Qed.

Lemma buildLoop_height call absDir relDir depth k :
  (forall a r e n err e', call a r (Int64.add depth 1) e = Some (n, err, e') ->
     (S (height n) <= k)%nat) ->
  forall kids children entries children' entries',
    Forall (fun c => (S (height c) <= k)%nat) children ->
    walkLoop call absDir relDir depth kids children entries = Some (children', entries') ->
    Forall (fun c => (S (height c) <= k)%nat) children'.
Proof.
  intros Hrec. induction kids as [| de rest IH];
    intros children entries children' entries' Hch; cbn [buildLoop]; cbv zeta.
  - now intros [= <- <-].
  - destruct (Z.leb maxEntries entries); [now intros [= <- <-] |].
    destruct (negb (deIsDir de)); [now apply IH |].
    destruct (String.eqb relDir "" && _); [now apply IH |].
    destruct (String.eqb _ _); [now apply IH |].
    destruct (filepath.Abs wd _); [| now apply IH].
    destruct (negb (isSubpath _ _)); [now apply IH |].
    destruct (call _ _ _ _) as [[[childNode err] entries2] |] eqn:Erec; [| discriminate].
    destruct err; [now apply IH |].
    apply IH. apply Forall_app. split; [assumption |].
    constructor; [| constructor]. eapply Hrec. exact Erec.
Qed.

Lemma build_height fuel :
  forall absDir relDir depth entries node err entries',
    0 <= depth ->
    walk fuel absDir relDir depth entries = Some (node, err, entries') ->
    Z.of_nat (height node) <= Z.max 0 (maxDepth - depth).
Proof.
  induction fuel as [| fuel IH]; intros absDir relDir depth entries node err entries' Hd;
    cbn [build]; cbv zeta.
  - destruct (Z.leb maxDepth depth); [| discriminate].
    intros [= <- <- <-]. cbn. lia.
  - destruct (Z.leb_spec maxDepth depth); [intros [= <- <- <-]; cbn; lia |].
    destruct (readDir absDir) as [kids |]; [| intros [= <- <- <-]; cbn; lia].
    destruct (walkLoop _ _ _ _ _ _ _) as [[children entries2] |] eqn:Eloop; [| discriminate].
    intros [= <- <- <-].
    assert (Hk : (height (mkDirNode
                            (if String.eqb relDir "" then filepath.Base (rootAbs s)
                             else filepath.Base absDir) relDir children)
                  <= Z.to_nat (maxDepth - depth))%nat).
    { apply height_children.
      refine (buildLoop_height (walk fuel) absDir relDir depth _ _ kids [] _ _ _
                (List.Forall_nil _) Eloop).
      intros a r e n err' e' Hcall.
      apply IH in Hcall.
      - rewrite Int64_add_no_overflow in Hcall
          by (unfold Int64.in_range, Int64.min_int, Int64.max_int in *; lia). lia.
      - rewrite Int64_add_no_overflow
          by (unfold Int64.in_range, Int64.min_int, Int64.max_int in *; lia). lia. }
    lia.
Qed.

(** The nodes below the nodes of a list, each counted with its subtree. *)
Lemma buildLoop_count call absDir relDir depth :
  (forall a r d e n err e', 0 <= e -> call a r d e = Some (n, err, e') ->
     e <= e' <= Z.max e maxEntries
     /\ Z.of_nat (length (descendants n)) <= e' - e) ->
  forall kids children entries children' entries',
    0 <= entries ->
    walkLoop call absDir relDir depth kids children entries = Some (children', entries') ->
    entries <= entries' <= Z.max entries maxEntries
    /\ Z.of_nat (length (flat_map (fun c => c :: descendants c) children'))
       <= Z.of_nat (length (flat_map (fun c => c :: descendants c) children))
          + (entries' - entries).
Proof.
  intros Hrec. induction kids as [| de rest IH];
    intros children entries children' entries' He; cbn [buildLoop]; cbv zeta.
  - intros [= <- <-]. lia.
  - destruct (Z.leb_spec maxEntries entries); [intros [= <- <-]; lia |].
    assert (E1 : Int64.add entries 1 = entries + 1)
      by (apply Int64_add_no_overflow;
          unfold Int64.in_range, Int64.min_int, Int64.max_int in *; lia).
    rewrite E1.
    destruct (negb (deIsDir de)); [intros Hl; apply IH in Hl; lia |].
    destruct (String.eqb relDir "" && _); [intros Hl; apply IH in Hl; lia |].
    destruct (String.eqb _ _); [intros Hl; apply IH in Hl; lia |].
    destruct (filepath.Abs wd _); [| intros Hl; apply IH in Hl; lia].
    destruct (negb (isSubpath _ _)); [intros Hl; apply IH in Hl; lia |].
    destruct (call _ _ _ _) as [[[childNode err] entries2] |] eqn:Erec; [| discriminate].
    apply Hrec in Erec; [| lia].
    destruct err; intros Hl; apply IH in Hl; try lia.
    rewrite flat_map_app, length_app in Hl. cbn [flat_map length app] in Hl.
    rewrite app_nil_r in Hl. cbn [length] in Hl. lia.
Qed.

Lemma build_count fuel :
  forall absDir relDir depth entries node err entries',
    0 <= entries ->
    walk fuel absDir relDir depth entries = Some (node, err, entries') ->
    entries <= entries' <= Z.max entries maxEntries
    /\ Z.of_nat (length (descendants node)) <= entries' - entries.
Proof.
  induction fuel as [| fuel IH]; intros absDir relDir depth entries node err entries' He;
    cbn [build]; cbv zeta.
  - destruct (Z.leb maxDepth depth); [| discriminate].
    intros [= <- <- <-]. cbn. lia.
  - destruct (Z.leb maxDepth depth); [intros [= <- <- <-]; cbn; lia |].
    destruct (readDir absDir) as [kids |]; [| intros [= <- <- <-]; cbn; lia].
    destruct (walkLoop _ _ _ _ _ _ _) as [[children entries2] |] eqn:Eloop; [| discriminate].
    intros [= <- <- <-].
    apply (buildLoop_count (walk fuel)) in Eloop; [| | assumption].
    + cbn [descendants flat_map length] in *. lia.
    + intros a r d e n err' e' He' Hcall. now apply IH in Hcall.
Qed.

End TreeBounds.

(** X14.  The tree a scan returns is no deeper than [max_depth] and has at
    most [max_entries] nodes below its root, whatever the disk holds; both
    limits are the ones [queryLimit] takes from the request. *)
Theorem tree_size wd s readDir r root :
  handleStorageTree wd s readDir r = Some (writeJSON StatusOK (JTree root)) ->
  Z.of_nat (height root) <= queryLimit r "max_depth" 0 20 4
  /\ (queryLimit r "max_depth" 0 20 4 <= 20)
  /\ Z.of_nat (length (descendants root)) <= queryLimit r "max_entries" 1 200000 5000
  /\ (queryLimit r "max_entries" 1 200000 5000 <= 200000).
Proof.
  unfold handleStorageTree.
  destruct (negb (String.eqb (Method r) "GET")); [discriminate |]. cbv zeta.
  pose proof (queryLimit_range r "max_depth" 0 20 4 ltac:(lia)) as Hd.
  pose proof (queryLimit_range r "max_entries" 1 200000 5000 ltac:(lia)) as He.
  destruct (build _ _ _ _ _ _ _ _ _ _) as [[[root0 err] e] |] eqn:Hb; [| discriminate].
  destruct err; [discriminate |]. intros [= ->].
  assert (Hdm : queryLimit r "max_depth" 0 20 4 <= Int64.max_int)
    by (unfold Int64.max_int; lia).
  assert (Hem : queryLimit r "max_entries" 1 200000 5000 <= Int64.max_int)
    by (unfold Int64.max_int; lia).
  pose proof (build_height wd s readDir _ _ Hdm _ _ _ _ _ _ _ _ (Z.le_refl 0) Hb) as H1.
  pose proof (build_count wd s readDir _ _ Hem _ _ _ _ _ _ _ _ (Z.le_refl 0) Hb) as H2.
  lia.
Qed.

Lemma tree_size_witness :
  Z.of_nat (height exampleTree) <= 3 /\ Z.of_nat (length (descendants exampleTree)) <= 100.
Proof.
  destruct (tree_size None exampleServer exampleDisk (treeRequest "3" "100") exampleTree
              ltac:(vm_compute; reflexivity)) as (H1 & _ & H2 & _).
  split; [exact H1 | exact H2].
Defined.

(** ** The directory tree: where its nodes come from *)

Section TreeListed.

Variable wd : option string.
Variable s : Server.
Variable readDir : string -> option (list DirEntry).
Variables maxDepth maxEntries : Z.

Hypothesis rootIsAbs : filepath.IsAbs (rootAbs s) = true.
Hypothesis readDirReal : readDirOk readDir.

Abbreviation visit := (build wd s readDir maxDepth maxEntries).
Abbreviation visitLoop := (buildLoop wd s maxEntries).

Lemma buildLoop_listed rec absDir relDir depth es :
  (relDir = "" /\ absDir = rootAbs s) \/ (exists nm, below s absDir relDir nm) ->
  readDir absDir = Some es ->
  (forall a r nm d e n err e',
     below s a r nm -> rec a r d e = Some (n, err, e') ->
     nodeRelPath n = r /\ nodeName n = filepath.Base a
     /\ Forall (listedDir s readDir) (descendants n)) ->
  forall kids children entries children' entries',
    (forall de, In de kids -> In de es) ->
    Forall (fun c => listedDir s readDir c
                     /\ Forall (listedDir s readDir) (descendants c)) children ->
    visitLoop rec absDir relDir depth kids children entries = Some (children', entries') ->
    Forall (fun c => listedDir s readDir c
                     /\ Forall (listedDir s readDir) (descendants c)) children'.
Proof.
  intros Hplace Hread Hrec. induction kids as [| de rest IH];
    intros children entries children' entries' Hin Hch; cbn [buildLoop].
  - now intros [= <- <-].
  - assert (Hrest : forall de', In de' rest -> In de' es)
      by (intros de' H'; apply Hin; now right).
    assert (Hde : real (deName de)).
    { pose proof (readDirReal _ _ Hread) as Hall. rewrite Forall_forall in Hall.
      apply Hall, list_elem_of_In, Hin. now left. }
    cbv zeta.
    destruct (Z.leb maxEntries entries); [now intros [= <- <-] |].
    destruct (deIsDir de) eqn:Hdir; cbn [negb]; [| now apply IH].
    destruct (String.eqb relDir "" && _); [now apply IH |].
    destruct (String.eqb_spec (deName de) (StateDir (storage (cfg s)))) as [| Hstate];
      [now apply IH |].
    assert (Hchild : below s (filepath.Join [absDir; deName de])
                       (if String.eqb relDir "" then deName de
                        else filepath.Join [relDir; deName de]) (deName de)).
    { destruct Hplace as [[-> ->] | [nm Hb]].
      - cbn [String.eqb]. now apply child_of_root.
      - rewrite (below_relDir _ _ _ _ Hb). now apply child_of_below with nm. }
    destruct (below_resolved wd s rootIsAbs _ _ _ Hchild) as (Hjoin & Hsub & Hbase & Habs).
    rewrite Habs, Hsub. cbn [negb].
    destruct (rec _ _ _ _) as [[[childNode err] entries2] |] eqn:Erec; [| discriminate].
    destruct err; [now apply IH |].
    apply IH; [assumption |].
    apply Forall_app. split; [assumption |]. constructor; [| constructor].
    destruct (Hrec _ _ _ _ _ _ _ _ Hchild Erec) as (Hrel & Hname & Hsubtree).
    split; [| assumption].
    exists absDir, es, de. split; [assumption |]. split; [apply Hin; now left |].
    split; [assumption |]. split; [now rewrite Hname, Hbase |].
    now rewrite Hrel, Hjoin.
Qed.

Lemma build_listed fuel :
  forall absDir relDir depth entries node err entries',
    (relDir = "" /\ absDir = rootAbs s) \/ (exists nm, below s absDir relDir nm) ->
    visit fuel absDir relDir depth entries = Some (node, err, entries') ->
    Forall (listedDir s readDir) (descendants node).
Proof.
  induction fuel as [| fuel IH]; intros absDir relDir depth entries node err entries' Hplace;
    cbn [build]; cbv zeta.
  - destruct (Z.leb maxDepth depth); [| discriminate].
    intros [= <- <- <-]. constructor.
  - destruct (Z.leb maxDepth depth); [intros [= <- <- <-]; constructor |].
    destruct (readDir absDir) as [kids |] eqn:Ekids; [| intros [= <- <- <-]; constructor].
    destruct (visitLoop _ _ _ _ _ _ _) as [[children entries2] |] eqn:Eloop; [| discriminate].
    intros [= <- <- <-]. cbn [descendants].
    apply Forall_flat_map.
    eapply Forall_impl.
    + refine (buildLoop_listed (visit fuel) absDir relDir depth kids Hplace Ekids _
                kids [] entries children entries2 (fun _ H => H) (List.Forall_nil _) Eloop).
      intros a r nm d e n err e' Hb Hbuild.
      destruct (build_fields _ _ _ _ _ _ _ _ _ _ _ _ _ Hbuild) as [Hr Hn].
      rewrite (below_relDir _ _ _ _ Hb) in Hn.
      split; [assumption |]. split; [assumption |].
      eapply IH; [| exact Hbuild]. right. eauto.
    + intros c [Hc Hsub]. constructor; assumption.
Qed.

End TreeListed.

(** X15.  The tree lists directories only, and only ones the disk
    reported: every node below the root stands for an entry that [ReadDir]
    of its parent directory returned with [IsDir], bears that entry's name,
    and its relative path joined to the storage root is the place of that
    entry.  (Proved for an absolute storage root and entries with file
    names, as [ReadDir] returns them.) *)
Theorem tree_nodes_are_listed_dirs wd s readDir r root :
  filepath.IsAbs (rootAbs s) = true ->
  readDirOk readDir ->
  handleStorageTree wd s readDir r = Some (writeJSON StatusOK (JTree root)) ->
  forall n, In n (descendants root) -> listedDir s readDir n.
Proof.
  intros Hroot Hrd. unfold handleStorageTree.
  destruct (negb (String.eqb (Method r) "GET")); [discriminate |]. cbv zeta.
  destruct (build _ _ _ _ _ _ _ _ _ _) as [[[root0 err] e] |] eqn:Hb; [| discriminate].
  destruct err; [discriminate |]. intros [= ->].
  pose proof (build_listed wd s readDir _ _ Hroot Hrd _ _ _ _ _ _ _ _
                (or_introl (conj eq_refl eq_refl)) Hb) as H.
  intros n Hn. rewrite Forall_forall in H. now apply H, list_elem_of_In.
Qed.

Lemma tree_nodes_are_listed_dirs_witness :
  List.Forall (listedDir exampleServer exampleDisk) (descendants exampleTree).
Proof.
  apply List.Forall_forall.
  apply (tree_nodes_are_listed_dirs None exampleServer exampleDisk
           (treeRequest "3" "100") exampleTree eq_refl exampleDisk_ok).
  vm_compute. reflexivity.
Defined.

(** ** The containment test *)

Lemma dropCommon_spec bs : forall ts br tr,
  filepath.dropCommon bs ts = (br, tr) ->
  exists c, bs = (c ++ br)%list /\ ts = (c ++ tr)%list
            /\ match br, tr with b :: _, t :: _ => b <> t | _, _ => True end.
Proof.
  induction bs as [| b bs IH]; intros ts br tr; cbn [filepath.dropCommon].
  - intros [= <- <-]. now exists [].
  - destruct ts as [| t ts]; [intros [= <- <-]; now exists [] |].
    destruct (String.eqb_spec b t) as [-> | Hne].
    + intros H. destruct (IH _ _ _ H) as (c & -> & -> & Hd). now exists (t :: c).
    + intros [= <- <-]. now exists [].
Qed.

Lemma Join_dotdot_escapes l :
  negb (String.eqb (strings.Join (".." :: l)) "..")
  && negb (strings.HasPrefix (strings.Join (".." :: l)) "../") = false.
Proof.
  destruct l as [| e l]; [reflexivity |].
  rewrite Join_cons by discriminate. reflexivity.
Qed.

(** X16.  [isSubpath] compares whole path elements, not bytes: for rooted
    paths it holds exactly when the elements of the cleaned root are the
    first elements of the cleaned child.  (So [/data/up-other] is not inside
    [/data/up], and the root is inside itself.) *)
Theorem isSubpath_elements child root :
  filepath.IsAbs child = true ->
  filepath.IsAbs root = true ->
  isSubpath child root = true
  <-> exists xs, rootElems child = (rootElems root ++ xs)%list.
Proof.
  unfold filepath.IsAbs. intros Hc Hr.
  pose proof (rootElems_real _ Hc) as HC. pose proof (rootElems_real _ Hr) as HR.
  unfold isSubpath, filepath.Rel.
  rewrite (Clean_root _ Hc), (Clean_root _ Hr).
  rewrite !(Clean_rooted_real _ HC), !(Clean_rooted_real _ HR).
  destruct (String.eqb_spec (String strings.slash (strings.Join (rootElems child)))
              (String strings.slash (strings.Join (rootElems root)))) as [E | _].
  { split; [intros _ | reflexivity].
    apply (f_equal filepath.elems) in E.
    rewrite (elems_rooted_real _ HC), (elems_rooted_real _ HR) in E.
    exists []. now rewrite app_nil_r. }
  rewrite rooted_neq_dot, !rooted_HasPrefix. cbn [Bool.eqb negb].
  rewrite (elems_rooted_real _ HC), (elems_rooted_real _ HR).
  destruct (filepath.dropCommon (rootElems root) (rootElems child)) as [br tr] eqn:Ed.
  destruct (dropCommon_spec _ _ _ _ Ed) as (c & ER & EC & Hd).
  change (".." +:+ filepath.Separator) with "../".
  destruct br as [| b br].
  - cbn [map app]. destruct (Join_real_not_escaping tr) as [H1 H2].
    { rewrite EC in HC. now apply Forall_app in HC as [_ ?]. }
    assert (Hres : negb (String.eqb (strings.Join tr) "..")
                   && negb (strings.HasPrefix (strings.Join tr) "../") = true)
      by now rewrite H1, H2.
    assert (Hpre : exists xs, rootElems child = (rootElems root ++ xs)%list).
    { exists tr. rewrite ER, EC. now rewrite app_nil_r. }
    destruct tr; (split; [intros _; exact Hpre | intros _; exact Hres]).
  - assert (Hb : b <> "..").
    { rewrite ER in HR. apply Forall_app in HR as [_ HR].
      apply Forall_cons in HR as [(_ & _ & ? & _) _]. assumption. }
    assert (Hno : ~ exists xs, rootElems child = (rootElems root ++ xs)%list).
    { intros [xs Ex]. rewrite ER, EC, <- app_assoc in Ex.
      apply app_inv_head in Ex. subst tr. cbn in Hd. congruence. }
    destruct tr as [| t tr].
    + cbn [map app]. rewrite Join_dotdot_escapes.
      split; [discriminate | intros H; now destruct Hno].
    + destruct (String.eqb_spec b ".."); [congruence |].
      cbn [fst snd map app]. rewrite Join_dotdot_escapes.
      split; [discriminate | intros H; now destruct Hno].
Qed.

Lemma isSubpath_elements_witness :
  isSubpath "/data/up/a" "/data/up" = true
  /\ isSubpath "/data/up-other" "/data/up" = false.
Proof.
  split.
  - apply (isSubpath_elements "/data/up/a" "/data/up"); [reflexivity | reflexivity |].
    exists ["a"]. reflexivity.
  - reflexivity.
Defined.

(** ** Starting the server *)

Lemma Abs_rooted wd p root :
  (filepath.IsAbs p = true \/ exists d, wd = Some d /\ filepath.IsAbs d = true) ->
  filepath.Abs wd p = Some root ->
  exists x, strings.HasPrefix x "/" = true /\ root = filepath.Clean x.
Proof.
  unfold filepath.Abs. intros H.
  destruct (filepath.IsAbs p) eqn:Hp.
  - intros [= <-]. now exists p.
  - destruct H as [H | (d & -> & Hd)]; [discriminate |].
    intros [= <-]. unfold filepath.IsAbs in Hd.
    destruct (rooted_cons _ Hd) as [d' ->].
    exists (String strings.slash d' +:+ String strings.slash p). split; reflexivity.
Qed.

(** X17.  What [newServer] hands to the handlers.  When the configured
    root is absolute, or the working directory is (as [os.Getwd] reports
    it), the storage root of the server is an absolute path in clean form.
    When the state directory is configured as a plain name, the state
    directory of the server is absolute, bears that name and lies inside the
    storage root.  The persistence interval is at least 64 MiB. *)
Theorem newServer_paths wd c s :
  (filepath.IsAbs (RootDir (storage c)) = true
   \/ exists d, wd = Some d /\ filepath.IsAbs d = true) ->
  newServer wd c = Some s ->
  filepath.IsAbs (rootAbs s) = true
  /\ filepath.Clean (rootAbs s) = rootAbs s
  /\ (real (StateDir (storage c)) ->
      filepath.IsAbs (stateAbs s) = true
      /\ filepath.Base (stateAbs s) = StateDir (storage c)
      /\ filepath.elems (stateAbs s)
         = (rootElems (rootAbs s) ++ [StateDir (storage c)])%list
      /\ isSubpath (stateAbs s) (rootAbs s) = true)
  /\ 64 * 1024 * 1024 <= metaSaveInterval s.
Proof.
  intros Hwd. unfold newServer.
  destruct (filepath.Abs wd _) as [root |] eqn:Eroot; [| discriminate].
  intros Hs. apply Some_inj in Hs. subst s. cbn [rootAbs stateAbs metaSaveInterval].
  destruct (Abs_rooted _ _ _ Hwd Eroot) as (x & Hx & ->).
  destruct (Clean_rooted _ Hx) as [Hout Ec].
  assert (Habs : filepath.IsAbs (filepath.Clean x) = true) by now rewrite Ec.
  split; [exact Habs |].
  split; [rewrite Ec; now apply Clean_rooted_real |].
  split.
  - intros Hst.
    assert (Hone : Forall real [StateDir (storage c)]) by (constructor; [assumption | constructor]).
    rewrite (Join_root_rel (filepath.Clean x) (StateDir (storage c)) [StateDir (storage c)]
               Habs Hone) by (right; split; [discriminate | reflexivity]).
    pose proof (rootElems_real _ Habs) as HR.
    split; [reflexivity |].
    split; [apply Base_rooted_snoc; assumption |].
    split; [apply elems_rooted_real, Forall_app; now split |].
    now apply isSubpath_below.
  - unfold maxInt64. destruct (Z.ltb_spec (Int64.div (MaxChunkBytes (limits c)) 2)
                                 (64 * 1024 * 1024)); lia.
Qed.

Lemma newServer_paths_witness :
  filepath.IsAbs (rootAbs exampleServer) = true
  /\ filepath.Base (stateAbs exampleServer) = StateDir (storage exampleConfig).
Proof.
  destruct (newServer_paths None exampleConfig exampleServer (or_introl eq_refl) eq_refl)
    as (H1 & _ & H2 & _).
  split; [exact H1 |].
  apply H2. repeat split; try discriminate; reflexivity.
Defined.

(** ** Sanitizing twice *)
















(** ** Upload ids *)

Lemma hex_byte (v : Byte.byte) :
  let c1 := hex.digit (N.shiftr (Byte.to_N v) 4) in
  let c2 := hex.digit (N.land (Byte.to_N v) 15) in
  (strings.isSpace c1 = false /\ strings.isSpace c2 = false)
  /\ (Ascii.eqb c1 strings.slash = false /\ Ascii.eqb c2 strings.slash = false)
  /\ Ascii.eqb c1 strings.dot = false
  /\ Byte.to_N v
     = (16 * (let k := N_of_ascii c1 in if N.ltb k 58 then k - 48 else k - 87)
        + (let k := N_of_ascii c2 in if N.ltb k 58 then k - 48 else k - 87))%N.
Proof. destruct v; vm_compute; repeat split; reflexivity. Qed.

Lemma hex_length b : String.length (hex.EncodeToString b) = (2 * length b)%nat.
Proof.
  induction b as [| v b IH]; [reflexivity |].
  cbn [hex.EncodeToString String.length length]. rewrite IH. lia.
Qed.

Lemma hex_nosep b : nosep (hex.EncodeToString b).
Proof.
  unfold nosep. induction b as [| v b IH]; [reflexivity |].
  destruct (hex_byte v) as (_ & (H1 & H2) & _).
  cbn [hex.EncodeToString strings.contains_slash]. now rewrite H1, H2.
Qed.

Lemma hex_TrimRight b :
  strings.TrimRight (hex.EncodeToString b) = hex.EncodeToString b.
Proof.
  induction b as [| v b IH]; [reflexivity |].
  destruct (hex_byte v) as ((H1 & H2) & _).
  cbn [hex.EncodeToString strings.TrimRight]. rewrite IH.
  destruct (hex.EncodeToString b); [now rewrite H2 | reflexivity].
Qed.

Lemma hex_inj b : forall b',
  hex.EncodeToString b' = hex.EncodeToString b -> b' = b.
Proof.
  induction b as [| v b IH]; intros [| v' b']; try discriminate; [reflexivity |].
  cbn [hex.EncodeToString]. intros [= E1 E2 E]. f_equal; [| now apply IH].
  destruct (hex_byte v) as (_ & _ & _ & Hv), (hex_byte v') as (_ & _ & _ & Hv').
  cbv zeta in Hv, Hv'. rewrite E1, E2, <- Hv in Hv'.
  pose proof (Byte.of_to_N v) as H. rewrite <- Hv', Byte.of_to_N in H. congruence.
Qed.

(** X19.  The ids [newUploadID] makes.  From 16 bytes it makes 32
    characters, none of them a separator, a dot or white space: the id is a
    plain file name, and the trimming the handlers apply to the [upload_id]
    parameter gives it back unchanged.  Different bytes make different
    ids. *)
Theorem newUploadID_plain_name b :
  length b = 16%nat ->
  String.length (gen.newUploadID b) = 32%nat
  /\ real (gen.newUploadID b)
  /\ strings.TrimSpace (gen.newUploadID b) = gen.newUploadID b
  /\ (forall b', gen.newUploadID b' = gen.newUploadID b -> b' = b).
Proof.
  intros Hlen. unfold gen.newUploadID.
  assert (Hl : String.length (hex.EncodeToString b) = 32%nat)
    by (rewrite hex_length, Hlen; reflexivity).
  split; [exact Hl |].
  destruct b as [| v b]; [discriminate |].
  destruct (hex_byte v) as ((Hs1 & _) & _ & Hdot & _).
  split; [| split; [| intros b'; apply hex_inj]].
  - split; [discriminate |].
    assert (Hne : forall t, hex.EncodeToString (v :: b) <> String strings.dot t).
    { cbn [hex.EncodeToString]. intros t [= E _]. rewrite E in Hdot. discriminate. }
    split; [apply Hne |]. split; [apply Hne | apply hex_nosep].
  - unfold strings.TrimSpace.
    replace (strings.TrimLeft (hex.EncodeToString (v :: b)))
      with (hex.EncodeToString (v :: b)); [apply hex_TrimRight |].
    cbn [hex.EncodeToString strings.TrimLeft]. now rewrite Hs1.
Qed.

Lemma newUploadID_plain_name_witness :
  real (gen.newUploadID (repeat Byte.xa7 16))
  /\ gen.newUploadID (repeat Byte.xa7 16) = "a7a7a7a7a7a7a7a7a7a7a7a7a7a7a7a7".
Proof.
  split; [| reflexivity].
  apply (newUploadID_plain_name (repeat Byte.xa7 16)). reflexivity.
Defined.
